(** * Paper-similarity checker: a shallow embedding of [main.py] and [mainTEST.py]

    The program normalises two documents, counts their character n-grams and
    returns the cosine of the two count vectors, written to a file with two
    decimals.  This file embeds the functions of [src/main.py] (and the
    unoptimised scorer of [src/mainTEST.py]) and checks the properties the
    specification states about them.

    Conventions of the embedding:
    - a Python [str] is a list of Unicode code points ([list N]);
    - a Python [int] is a [Z]; a Python [float] is an IEEE-754 binary64 value,
      a [spec_float] operated at precision 53 and maximal exponent 1024;
    - a [Counter] / [defaultdict(int)] is a [gmap] from n-grams to [Z];
    - a raised exception is the [Raise] outcome of a [result];
    - [functools.lru_cache] is an explicit cache threaded through the calls;
    - the file system touched by [write_result] is an explicit store. *)

From Stdlib Require Import ZArith List Bool Lia String Ascii.
From Stdlib Require Import SpecFloat.
From Stdlib Require Import Reals Lra.
From stdpp Require Import gmap strings list fin_maps.

Local Open Scope Z_scope.

(** ** Python values, exceptions, results *)

(** Python strings: sequences of code points. *)
Abbreviation str := (list N).

(** The ASCII literal [s] as a Python string. *)
Definition txt (s : string) : str :=
  map (λ a : ascii, N_of_ascii a) (list_ascii_of_string s).
Arguments txt s%_string.

Definition len (t : str) : Z := Z.of_nat (length t).

(** The dynamically typed values that reach the functions below. *)
Inductive pyval :=
| VNone
| VBool (b : bool)
| VInt (z : Z)
| VFloat (f : spec_float)
| VStr (s : str)
| VList (items : list Z).

Inductive exn :=
| PaperCheckException (m : message)
| TypeError        (* unhashable argument of an lru_cache wrapper *)
| OverflowError    (* int too large to convert to float *)
| ValueError       (* math domain error *)
| ZeroDivisionError
| OSError          (* open() failed *)
with message :=
| MsgPathEmpty | MsgPathNotStr | MsgPathTooLong
| MsgOutDirMissing (dir : str) | MsgOutDirNotWritable (dir : str)
| MsgFileMissing | MsgFileUnreadable
| MsgPreprocessNotStr        (* "预处理文本必须是字符串" *)
| MsgTextNotStr              (* "文本必须是字符串" *)
| MsgNNotPositiveInt         (* "n必须是正整数" *)
| MsgCosineFailed (cause : exn)
| MsgResultNotNumber | MsgResultOutOfRange
| MsgWriteFailed (cause : exn).

Inductive result (A : Type) :=
| Ok (a : A)
| Raise (e : exn).
Arguments Ok {A} a.
Arguments Raise {A} e.

(** [isinstance(v, str)], [isinstance(v, int)] ([bool] is a subclass of
    [int], [True == 1]). *)
Definition as_str (v : pyval) : option str :=
  match v with VStr s => Some s | _ => None end.

Definition as_int (v : pyval) : option Z :=
  match v with
  | VInt z => Some z
  | VBool b => Some (if b then 1 else 0)
  | _ => None
  end.

(** [hash(v)] succeeds on everything but lists. *)
Definition hashable (v : pyval) : bool :=
  match v with VList _ => false | _ => true end.

(** ** Binary64 *)

Definition prec : Z := 53.
Definition emax : Z := 1024.

Abbreviation float := spec_float.

Definition f_zero : float := S754_zero false.                          (* 0.0 *)
Definition f_one : float := S754_finite false 4503599627370496 (-52).  (* 1.0 *)

Definition f_mul : float → float → float := SFmul prec emax.
Definition f_div : float → float → float := SFdiv prec emax.
Definition f_sqrt : float → float := SFsqrt prec emax.
Definition f_lt (x y : float) : bool := SFltb x y.
Definition f_eq (x y : float) : bool := SFeqb x y.

(** The double nearest to the rational [num/den] ([0 < num], [0 < den]),
    ties to even: what a decimal literal or [strtod] denotes. *)
Definition nearest_double (num den : positive) : float :=
  f_div (S754_finite false num 0) (S754_finite false den 0).

(** [float(z)] for a Python int: round to nearest, ties to even;
    [OverflowError] when the rounded value does not fit. *)
Definition float_of_int (z : Z) : result float :=
  match binary_normalize prec emax z 0 false with
  | S754_infinity _ => Raise OverflowError
  | f => Ok f
  end.

(** The exact integer value of a float, when it has one. *)
Definition float_integer_value (f : float) : option Z :=
  match f with
  | S754_zero _ => Some 0
  | S754_finite s m e =>
      let sign (z : Z) := if s then - z else z in
      if 0 <=? e then Some (sign (Z.pos m * 2 ^ e))
      else if Z.pos m mod 2 ^ (- e) =? 0 then Some (sign (Z.pos m / 2 ^ (- e)))
      else None
  | _ => None
  end.

(** [a == b] on the values used as cache keys: numbers compare by value
    across [bool], [int] and [float]; strings by content. *)
Definition py_eq (a b : pyval) : bool :=
  match a, b with
  | VNone, VNone => true
  | VStr s, VStr t => bool_decide (s = t)
  | VFloat f, VFloat g => f_eq f g
  | VFloat f, _ =>
      match float_integer_value f, as_int b with
      | Some x, Some y => x =? y
      | _, _ => false
      end
  | _, VFloat g =>
      match as_int a, float_integer_value g with
      | Some x, Some y => x =? y
      | _, _ => false
      end
  | _, _ =>
      match as_int a, as_int b with
      | Some x, Some y => x =? y
      | _, _ => false
      end
  end.

(** ** The Unicode tables of the interpreter

    [re]'s [\w] and [\s], [str.strip] and [str.lower] consult the Unicode
    database built into CPython.  The embedding takes it as data. *)
Class UnicodeData := {
  (** [Py_UNICODE_ISALNUM]: what [\w] matches, apart from the underscore *)
  Py_UNICODE_ISALNUM : N → bool;
  (** [Py_UNICODE_ISSPACE]: what [\s] matches and [str.strip] removes *)
  Py_UNICODE_ISSPACE : N → bool;
  (** [str.lower] *)
  str_lower : str → str;
}.

(** What the proofs below use of CPython's tables: U+0020 is white space;
    lower-casing twice is lower-casing once; white space is left alone by
    [str.lower] and separates what it lower-cases (no casing rule looks across
    white space); the lower case of a word without white space is without
    white space, and is empty only if the word is. *)
Class UnicodeLaws (U : UnicodeData) : Prop := {
  space_is_space : Py_UNICODE_ISSPACE 32 = true;
  str_lower_idemp : ∀ t, str_lower (str_lower t) = str_lower t;
  str_lower_split : ∀ a c b,
    Py_UNICODE_ISSPACE c = true →
    str_lower (a ++ c :: b) = str_lower a ++ c :: str_lower b;
  str_lower_word : ∀ w,
    Forall (λ c, Py_UNICODE_ISSPACE c = false) w →
    Forall (λ c, Py_UNICODE_ISSPACE c = false) (str_lower w)
    ∧ (str_lower w = [] ↔ w = []);
}.

(** The fragment of CPython's tables over Basic Latin, the CJK unified
    ideographs U+4E00..U+9FFF, LATIN CAPITAL LETTER I WITH DOT ABOVE (U+0130,
    whose lower case is the two code points U+0069 U+0307) and COMBINING DOT
    ABOVE (U+0307, a mark, neither alphanumeric nor space), with all the
    white-space code points.  Code points outside the fragment are treated as
    caseless punctuation; the fragment is used for concrete runs only. *)
Module PyFragment.

Definition between (lo c hi : N) : bool := ((lo <=? c) && (c <=? hi))%N.

Definition isalnum (c : N) : bool :=
  between 48 c 57 || between 65 c 90 || between 97 c 122
  || (c =? 304)%N || between 19968 c 40959.

Definition isspace (c : N) : bool :=
  between 9 c 13 || between 28 c 32 || (c =? 133)%N || (c =? 160)%N
  || (c =? 5760)%N || between 8192 c 8202 || (c =? 8232)%N || (c =? 8233)%N
  || (c =? 8239)%N || (c =? 8287)%N || (c =? 12288)%N.

Definition lower_char (c : N) : str :=
  if between 65 c 90 then [(c + 32)%N]
  else if (c =? 304)%N then [105; 775]%N
  else [c].

Definition lower (t : str) : str := t ≫= lower_char.

#[export] Instance data : UnicodeData :=
  {| Py_UNICODE_ISALNUM := isalnum;
     Py_UNICODE_ISSPACE := isspace;
     str_lower := lower |}.

End PyFragment.

(** ** Normaliser: [preprocess_text] *)

Section Normalizer.
Context {U : UnicodeData}.

(** [\w] *)
Definition is_word (c : N) : bool := Py_UNICODE_ISALNUM c || (c =? 95)%N.
(** [\s] *)
Definition is_space (c : N) : bool := Py_UNICODE_ISSPACE c.

(** [re.sub(r'[^\w\s]', '', text)] *)
Definition remove_non_word (t : str) : str :=
  filter (λ c, is_word c || is_space c = true) t.

(** [re.sub(r'\s+', ' ', text)]: every maximal run of white space becomes
    one ASCII space.  [in_run] tells that the previous character was white
    space, already replaced. *)
Fixpoint collapse_spaces (in_run : bool) (t : str) : str :=
  match t with
  | [] => []
  | c :: t' =>
      if is_space c
      then (if in_run then collapse_spaces true t'
            else 32%N :: collapse_spaces true t')
      else c :: collapse_spaces false t'
  end.

Fixpoint lstrip (t : str) : str :=
  match t with
  | [] => []
  | c :: t' => if is_space c then lstrip t' else t
  end.

Fixpoint rstrip (t : str) : str :=
  match t with
  | [] => []
  | c :: t' =>
      match rstrip t' with
      | [] => if is_space c then [] else [c]
      | r => c :: r
      end
  end.

(** [text.strip()] *)
Definition strip (t : str) : str := rstrip (lstrip t).

(** The three statements of [preprocess_text], in order. *)
Definition normalize (t : str) : str :=
  let t := remove_non_word t in
  let t := str_lower t in
  strip (collapse_spaces false t).

(** The body of [preprocess_text], before caching. *)
Definition preprocess_text_body (text : pyval) : result str :=
  match as_str text with
  | None => Raise (PaperCheckException MsgPreprocessNotStr)
  | Some t => Ok (normalize t)
  end.

End Normalizer.

(** ** N-gram frequencies: [get_ngram_frequency] *)

(** [range(k)] *)
Definition range (k : Z) : list Z := Z.of_nat <$> seq 0 (Z.to_nat k).

(** [text[i:j]] for [0 <= i <= j] *)
Definition slice (t : str) (i j : Z) : str :=
  take (Z.to_nat (j - i)) (drop (Z.to_nat i) t).

(** [Counter]: a missing key reads as 0. *)
Definition count_of (freq : gmap str Z) (g : str) : Z := default 0 (freq !! g).

(** [freq[g] += 1] *)
Definition incr (freq : gmap str Z) (g : str) : gmap str Z :=
  <[g := count_of freq g + 1]> freq.

(** The loop of [get_ngram_frequency] (and the two loops of [mainTEST.py]
    fused): one increment per window. *)
Definition count_ngrams (text : str) (n : Z) : gmap str Z :=
  foldl (λ freq i, incr freq (slice text i (i + n))) ∅ (range (len text - n + 1)).

(** The body of [get_ngram_frequency], before caching. *)
Definition get_ngram_frequency_body (text n : pyval) : result (gmap str Z) :=
  match as_str text with
  | None => Raise (PaperCheckException MsgTextNotStr)
  | Some t =>
      match as_int n with
      | None => Raise (PaperCheckException MsgNNotPositiveInt)
      | Some k =>
          if k <? 1 then Raise (PaperCheckException MsgNNotPositiveInt)
          else if len t <? k then Ok ∅
          else Ok (count_ngrams t k)
      end
  end.

(** ** [functools.lru_cache]

    The wrapper hashes its arguments ([TypeError] when one is unhashable),
    looks the key up with [==], returns the stored value on a hit and moves
    the entry to the most recent position; on a miss it runs the function,
    stores a returned value (evicting the least recently used entry of a full
    cache) and lets an exception through without storing anything.  With
    [typed=False] keys that compare equal are one key: [f(3)] and [f(3.0)]
    are the same call. *)
Section LruCache.
Context {K V : Type}.
Variable key_hashable : K → bool.
Variable key_eq : K → K → bool.
Variable maxsize : nat.

(** Entries, most recently used first. *)
Definition cache : Type := list (K * V).

(** The first entry whose key equals [k], and the other entries. *)
Fixpoint cache_find (k : K) (c : cache) : option ((K * V) * cache) :=
  match c with
  | [] => None
  | e :: c' =>
      if key_eq e.1 k then Some (e, c')
      else match cache_find k c' with
           | Some (hit, rest) => Some (hit, e :: rest)
           | None => None
           end
  end.

Definition cache_store (k : K) (v : V) (c : cache) : cache :=
  (k, v) :: (if decide (maxsize ≤ length c)%nat then removelast c else c).

Definition lru_cache (f : K → result V) (k : K) (c : cache)
  : result V * cache :=
  if key_hashable k then
    match cache_find k c with
    | Some (hit, rest) => (Ok hit.2, hit :: rest)
    | None =>
        match f k with
        | Ok v => (Ok v, cache_store k v c)
        | Raise e => (Raise e, c)
        end
    end
  else (Raise TypeError, c).

(** Every stored value is what the function returned for the stored key. *)
Definition cache_valid (f : K → result V) (c : cache) : Prop :=
  ∀ k v, (k, v) ∈ c → f k = Ok v.
End LruCache.

(** The two caches of [main.py], both with [maxsize=128]. *)
Record caches := {
  preprocess_cache : list (pyval * str);
  ngram_cache : list ((pyval * pyval) * gmap str Z);
}.

Definition no_caches : caches :=
  {| preprocess_cache := []; ngram_cache := [] |}.

(** Computations that read and update the caches and may raise. *)
Definition M (A : Type) : Type := caches → result A * caches.

Definition ret {A} (a : A) : M A := λ st, (Ok a, st).
Definition raise {A} (e : exn) : M A := λ st, (Raise e, st).
Definition bind {A B} (m : M A) (k : A → M B) : M B :=
  λ st, match m st with
        | (Ok a, st') => k a st'
        | (Raise e, st') => (Raise e, st')
        end.
Definition lift {A} (r : result A) : M A := λ st, (r, st).

(** [try: m except Exception as e: raise h(e)] *)
Definition try_except {A} (m : M A) (h : exn → exn) : M A :=
  λ st, match m st with
        | (Ok a, st') => (Ok a, st')
        | (Raise e, st') => (Raise (h e), st')
        end.

Notation "'let*' x ':=' m 'in' k" := (bind m (λ x, k))
  (at level 10, x name, m at level 100, k at level 200).

Section Scorer.
Context {U : UnicodeData}.

(** [@lru_cache(maxsize=128) def preprocess_text(text)] *)
Definition preprocess_text (text : pyval) : M str :=
  λ st,
    let '(r, c) := lru_cache hashable py_eq 128 preprocess_text_body text
                     (preprocess_cache st) in
    (r, {| preprocess_cache := c; ngram_cache := ngram_cache st |}).

Definition key2_hashable (k : pyval * pyval) : bool :=
  hashable k.1 && hashable k.2.
Definition key2_eq (k k' : pyval * pyval) : bool :=
  py_eq k.1 k'.1 && py_eq k.2 k'.2.

(** [@lru_cache(maxsize=128) def get_ngram_frequency(text, n)] *)
Definition get_ngram_frequency (text n : pyval) : M (gmap str Z) :=
  λ st,
    let '(r, c) := lru_cache key2_hashable key2_eq 128
                     (λ k, get_ngram_frequency_body k.1 k.2) (text, n)
                     (ngram_cache st) in
    (r, {| preprocess_cache := preprocess_cache st; ngram_cache := c |}).

(** [sum(freq1[gram] * freq2[gram] for gram in grams)] *)
Definition dot_over (grams : gset str) (freq1 freq2 : gmap str Z) : Z :=
  set_fold (λ g acc, acc + count_of freq1 g * count_of freq2 g) 0 grams.

(** [sum(freq ** 2 for freq in freq.values())] *)
Definition sum_squares (freq : gmap str Z) : Z :=
  map_fold (λ _ v acc, acc + v ^ 2) 0 freq.

(** [math.sqrt(z)] on a Python int *)
Definition math_sqrt (z : Z) : result float :=
  match float_of_int z with
  | Raise e => Raise e
  | Ok f => if f_lt f f_zero then Raise ValueError else Ok (f_sqrt f)
  end.

(** [z / d] for an int [z] and a float [d] *)
Definition int_truediv (z : Z) (d : float) : result float :=
  match float_of_int z with
  | Raise e => Raise e
  | Ok f => if f_eq d f_zero then Raise ZeroDivisionError else Ok (f_div f d)
  end.

(** [min(1.0, x)] and [max(0.0, x)]: the first argument unless the second
    is strictly smaller (larger). *)
Definition min_1 (x : float) : float := if f_lt x f_one then x else f_one.
Definition max_0 (x : float) : float := if f_lt f_zero x then x else f_zero.

(** [max(0.0, min(1.0, similarity))] *)
Definition clamp (x : float) : float := max_0 (min_1 x).

(** The statements of [calculate_cosine_similarity] from the dot product
    on, given the two frequency counters. *)
Definition cosine_of_counters (freq1 freq2 : gmap str Z) : result float :=
  let common_grams := dom freq1 ∩ dom freq2 in
  let dot_product := dot_over common_grams freq1 freq2 in
  match math_sqrt (sum_squares freq1) with
  | Raise e => Raise e
  | Ok magnitude1 =>
      match math_sqrt (sum_squares freq2) with
      | Raise e => Raise e
      | Ok magnitude2 =>
          if f_eq (f_mul magnitude1 magnitude2) f_zero then Ok f_zero
          else
            match int_truediv dot_product (f_mul magnitude1 magnitude2) with
            | Raise e => Raise e
            | Ok similarity => Ok (clamp similarity)
            end
      end
  end.

(** [calculate_cosine_similarity(text1, text2, n)] of [main.py] *)
Definition calculate_cosine_similarity (text1 text2 n : pyval) : M float :=
  try_except
    (let* text1 := preprocess_text text1 in
     let* text2 := preprocess_text text2 in
     if bool_decide (text1 = []) || bool_decide (text2 = []) then ret f_zero
     else
       let* freq1 := get_ngram_frequency (VStr text1) n in
       let* freq2 := get_ngram_frequency (VStr text2) n in
       if bool_decide (freq1 = ∅) || bool_decide (freq2 = ∅) then ret f_zero
       else lift (cosine_of_counters freq1 freq2))
    (λ e, PaperCheckException (MsgCosineFailed e)).

End Scorer.

(** ** The unoptimised scorer of [mainTEST.py]

    No cache, no argument checks, no clamp; the dot product runs over the
    union of the keys, reading the two [defaultdict(int)]s, which inserts a
    zero entry for every key it misses. *)
Module MainTest.
Section MainTest.
Context {U : UnicodeData}.

Definition preprocess_text (text : str) : str := normalize text.

(** [get_ngrams(text, n)] *)
Definition get_ngrams (text : str) (n : Z) : list str :=
  (λ i, slice text i (i + n)) <$> range (len text - n + 1).

(** [freq = defaultdict(int); for gram in ngrams: freq[gram] += 1] *)
Definition frequencies (ngrams : list str) : gmap str Z :=
  foldl incr ∅ ngrams.

(** [freq[gram]] on a [defaultdict(int)]: the value, and the dictionary
    with the key now present. *)
Definition dd_get (freq : gmap str Z) (g : str) : Z * gmap str Z :=
  match freq !! g with
  | Some v => (v, freq)
  | None => (0, <[g := 0]> freq)
  end.

(** [for gram in all_grams: dot_product += freq1[gram] * freq2[gram]] *)
Definition dot_loop (all_grams : gset str) (freq1 freq2 : gmap str Z)
  : Z * gmap str Z * gmap str Z :=
  set_fold (λ g '(dot, f1, f2),
              let '(a, f1') := dd_get f1 g in
              let '(b, f2') := dd_get f2 g in
              (dot + a * b, f1', f2'))
           (0, freq1, freq2) all_grams.

(** [calculate_cosine_similarity(text1, text2, n)] of [mainTEST.py] *)
Definition calculate_cosine_similarity (text1 text2 : str) (n : Z)
  : result float :=
  let text1 := preprocess_text text1 in
  let text2 := preprocess_text text2 in
  let freq1 := frequencies (get_ngrams text1 n) in
  let freq2 := frequencies (get_ngrams text2 n) in
  let all_grams := dom freq1 ∪ dom freq2 in
  let '(dot_product, freq1, freq2) := dot_loop all_grams freq1 freq2 in
  match math_sqrt (sum_squares freq1) with
  | Raise e => Raise e
  | Ok magnitude1 =>
      match math_sqrt (sum_squares freq2) with
      | Raise e => Raise e
      | Ok magnitude2 =>
          if f_eq (f_mul magnitude1 magnitude2) f_zero then Ok f_zero
          else int_truediv dot_product (f_mul magnitude1 magnitude2)
      end
  end.

End MainTest.
End MainTest.

(** ** Result encoder: [round(result, 2)] and [str] *)

(** The integer nearest to [num/den] ([0 <= num], [0 < den]), ties to even. *)
Definition round_half_even (num den : Z) : Z :=
  let q := num / den in
  match 2 * (num mod den) ?= den with
  | Lt => q
  | Gt => q + 1
  | Eq => if Z.even q then q else q + 1
  end.

(** The double nearest to [num/den] for integers [0 <= num], [0 < den]. *)
Definition double_of_ratio (num den : Z) : float :=
  match num, den with
  | Z.pos a, Z.pos b => nearest_double a b
  | _, _ => f_zero
  end.

(** A finite non-zero magnitude [m * 2^e] as a fraction. *)
Definition ratio_of (m : positive) (e : Z) : Z * Z :=
  if 0 <=? e then (Z.pos m * 2 ^ e, 1) else (Z.pos m, 2 ^ (- e)).

(** [num/den * 10^k] as a fraction. *)
Definition scale10 (num den k : Z) : Z * Z :=
  if 0 <=? k then (num * 10 ^ k, den) else (num, den * 10 ^ (- k)).

(** [round(x, 2)] on a float: the exact value of [x] is rounded to the
    nearest multiple of 1/100, ties to even, and the double nearest to that
    decimal is returned; zeros, infinities and NaN round to themselves. *)
Definition round2 (x : float) : float :=
  match x with
  | S754_finite s m e =>
      let '(num, den) := ratio_of m e in
      let k := round_half_even (100 * num) den in
      if k =? 0 then S754_zero s
      else if s then SFopp (double_of_ratio k 100) else double_of_ratio k 100
  | _ => x
  end.

Definition digit (d : Z) : N := Z.to_N (48 + d).

Fixpoint digits_aux (fuel : nat) (n : Z) (acc : str) : str :=
  match fuel with
  | O => acc
  | S fuel' =>
      if n <? 10 then digit n :: acc
      else digits_aux fuel' (n / 10) (digit (n mod 10) :: acc)
  end.

(** The decimal digits of [n >= 0]. *)
Definition decimal_digits (n : Z) : str :=
  digits_aux (S (Z.to_nat (Z.log2 n))) n [].

(** The position [p] of the decimal point of [num/den > 0]:
    [10^(p-1) <= num/den < 10^p]. *)
Fixpoint find_decpt (fuel : nat) (num den p : Z) : Z :=
  match fuel with
  | O => p
  | S fuel' =>
      let '(a, b) := scale10 num den (- p) in
      if b <=? a then find_decpt fuel' num den (p + 1)
      else if 10 * a <? b then find_decpt fuel' num den (p - 1)
      else p
  end.

(** [num/den] rounded to [nd] significant digits: the digits as an integer
    and the position of the decimal point. *)
Definition round_to_digits (num den p nd : Z) : Z * Z :=
  let '(a, b) := scale10 num den (nd - p) in
  let digits := round_half_even a b in
  if digits =? 10 ^ nd then (10 ^ (nd - 1), p + 1) else (digits, p).

(** The least number of significant digits whose decimal converts back to
    the magnitude [x = num/den]; 17 always do. *)
Fixpoint shortest_digits (fuel : nat) (x : float) (num den p nd : Z)
  : Z * Z * Z :=
  let '(digits, p') := round_to_digits num den p nd in
  match fuel with
  | O => (digits, p', nd)
  | S fuel' =>
      let '(a, b) := scale10 digits 1 (p' - nd) in
      if f_eq (double_of_ratio a b) x then (digits, p', nd)
      else shortest_digits fuel' x num den p (nd + 1)
  end.

Definition zeros (k : Z) : str := replicate (Z.to_nat k) 48%N.

(** The layout of [repr] for the digits [ds] with the decimal point after
    [decpt] of them: positional between 1e-4 and 1e16, with [.0] added to an
    integer; scientific elsewhere. *)
Definition layout (ds : str) (decpt : Z) : str :=
  let nd := len ds in
  if (decpt <=? -4) || (16 <? decpt) then
    let mantissa :=
      match ds with
      | [] => []
      | d :: [] => [d]
      | d :: rest => d :: 46%N :: rest
      end in
    let e := decpt - 1 in
    let edigits := decimal_digits (Z.abs e) in
    mantissa ++ [101%N; if e <? 0 then 45%N else 43%N]
      ++ (if len edigits <? 2 then 48%N :: edigits else edigits)
  else if decpt <=? 0 then [48; 46]%N ++ zeros (- decpt) ++ ds
  else if nd <=? decpt then ds ++ zeros (decpt - nd) ++ [46; 48]%N
  else take (Z.to_nat decpt) ds ++ 46%N :: drop (Z.to_nat decpt) ds.

(** [str(x)] for a float: the shortest decimal string that reads back as
    [x]. *)
Definition float_str (x : float) : str :=
  match x with
  | S754_nan => txt "nan"
  | S754_infinity s => if s then txt "-inf" else txt "inf"
  | S754_zero s => if s then txt "-0.0" else txt "0.0"
  | S754_finite s m e =>
      let '(num, den) := ratio_of m e in
      let p := find_decpt 1400 num den 0 in
      let '(digits, p', _) :=
        shortest_digits 16 (S754_finite false m e) num den p 1 in
      (if s then [45%N] else []) ++ layout (decimal_digits digits) p'
  end.

(** ** Files: [validate_file_path] and [write_result] *)

(** What the [os] module and [open] answer at the time of the call. *)
Class OsEnv := {
  os_path_dirname : str → str;
  os_path_exists : str → bool;
  os_access_R_OK : str → bool;
  os_access_W_OK : str → bool;
  (** [open(path, 'w')] succeeds *)
  open_for_writing : str → bool;
}.

(** Truth value of a Python object ([not v] is its negation). *)
Definition truthy (v : pyval) : bool :=
  match v with
  | VNone => false
  | VBool b => b
  | VInt z => negb (z =? 0)
  | VFloat f => negb (f_eq f f_zero)
  | VStr s => negb (bool_decide (s = []))
  | VList l => negb (bool_decide (l = []))
  end.

Section Files.
Context {E : OsEnv}.

(** [validate_file_path(file_path, is_output)] *)
Definition validate_file_path (file_path : pyval) (is_output : bool)
  : result unit :=
  if negb (truthy file_path) then Raise (PaperCheckException MsgPathEmpty)
  else
    match as_str file_path with
    | None => Raise (PaperCheckException MsgPathNotStr)
    | Some p =>
        if 260 <? len p then Raise (PaperCheckException MsgPathTooLong)
        else if is_output then
          let dir_path := os_path_dirname p in
          if negb (bool_decide (dir_path = [])) && negb (os_path_exists dir_path)
          then Raise (PaperCheckException (MsgOutDirMissing dir_path))
          else if negb (bool_decide (dir_path = []))
                  && negb (os_access_W_OK dir_path)
          then Raise (PaperCheckException (MsgOutDirNotWritable dir_path))
          else Ok tt
        else
          if negb (os_path_exists p)
          then Raise (PaperCheckException MsgFileMissing)
          else if negb (os_access_R_OK p)
          then Raise (PaperCheckException MsgFileUnreadable)
          else Ok tt
    end.

(** [isinstance(result, (int, float))] and [float(result)] *)
Definition as_number (v : pyval) : option (result float) :=
  match v with
  | VInt z => Some (float_of_int z)
  | VBool b => Some (Ok (if b then f_one else f_zero))
  | VFloat f => Some (Ok f)
  | _ => None
  end.

(** [str(round(result, 2))] *)
Definition encode (score : float) : str := float_str (round2 score).

(** The [try] block of [write_result]; the file contents are the state. *)
Definition write_result_try (result_ output_path : pyval)
    (files : gmap str str) : result unit * gmap str str :=
  match validate_file_path output_path true with
  | Raise e => (Raise e, files)
  | Ok _ =>
      match as_number result_ with
      | None => (Raise (PaperCheckException MsgResultNotNumber), files)
      | Some (Raise e) => (Raise e, files)
      | Some (Ok r) =>
          if f_lt r f_zero || f_lt f_one r
          then (Raise (PaperCheckException MsgResultOutOfRange), files)
          else
            let formatted_result := round2 r in
            match as_str output_path with
            | Some p =>
                if open_for_writing p
                then (Ok tt, <[p := float_str formatted_result]> files)
                else (Raise OSError, files)
            | None => (Raise TypeError, files)
            end
      end
  end.

(** [write_result(result, output_path)]: a [PaperCheckException] passes,
    any other exception is wrapped into one. *)
Definition write_result (result_ output_path : pyval)
    (files : gmap str str) : result unit * gmap str str :=
  match write_result_try result_ output_path files with
  | (Raise (PaperCheckException m), files') =>
      (Raise (PaperCheckException m), files')
  | (Raise e, files') => (Raise (PaperCheckException (MsgWriteFailed e)), files')
  | ok => ok
  end.

End Files.

(** * Notions of the specification *)

(** The caches of a run: every entry was computed by the cached function. *)
Definition coherent `{U : UnicodeData} (st : caches) : Prop :=
  cache_valid preprocess_text_body (preprocess_cache st)
  ∧ cache_valid (λ k, get_ngram_frequency_body k.1 k.2) (ngram_cache st).

(** The number of offsets [i], [0 <= i <= len(text) - n], at which the
    substring of length [n] is [g]. *)
Definition occurrences (text : str) (n : nat) (g : str) : Z :=
  Z.of_nat (length (filter (λ i, take n (drop i text) = g)
                           (seq 0 (length text + 1 - n)))).

(** The n-gram table the specification gives for ["hello world"], [n = 2]. *)
Definition hello_world_bigrams : gmap str Z :=
  list_to_map
    [(txt "he", 1); (txt "el", 1); (txt "ll", 1); (txt "lo", 1); (txt "o ", 1);
     (txt " w", 1); (txt "wo", 1); (txt "or", 1); (txt "rl", 1); (txt "ld", 1)].

Section NormalizedText.
Context {U : UnicodeData}.

(** White space occurs only as single ASCII spaces: every white-space
    character is U+0020 and no two spaces are adjacent. *)
Definition single_spaced (y : str) : Prop :=
  (∀ c, c ∈ y → is_space c = true → c = 32%N)
  ∧ (∀ i, y !! i = Some 32%N → y !! S i ≠ Some 32%N).

(** No leading and no trailing white space. *)
Definition trimmed (y : str) : Prop :=
  (∀ c, head y = Some c → is_space c = false)
  ∧ (∀ c, last y = Some c → is_space c = false).

(** Only word characters and spaces. *)
Definition only_words_and_spaces (y : str) : Prop :=
  ∀ c, c ∈ y → is_word c = true ∨ c = 32%N.

(** The invariant the specification gives for a Normalized Text: only word
    characters and single-space separators, no leading or trailing white
    space, all letters lower-cased. *)
Definition normalized_text (y : str) : Prop :=
  only_words_and_spaces y ∧ single_spaced y ∧ trimmed y ∧ str_lower y = y.

End NormalizedText.

Section NormalFormCheck.
Context {U : UnicodeData}.

(** [spaced b t]: in [t], read after a space when [b], every white-space
    character is a single U+0020. *)
Fixpoint spaced (after_space : bool) (t : str) : bool :=
  match t with
  | [] => true
  | c :: t' =>
      if is_space c then (c =? 32)%N && negb after_space && spaced true t'
      else spaced false t'
  end.

End NormalFormCheck.

(** Sums used to state and prove the properties of the counters. *)
Definition Zsum (l : list Z) : Z := foldr Z.add 0 l.

(** [sum(h(g) for g in X)] *)
Definition sum_over (h : str → Z) (X : gset str) : Z := Zsum (h <$> elements X).

(** [sum(phi(v) for v in freq.values())] *)
Definition msum (phi : Z → Z) (freq : gmap str Z) : Z :=
  map_fold (λ _ v acc, acc + phi v) 0 freq.

(** All counts are at least 1: what a [Counter] built by increments holds. *)
Definition positive_counts (freq : gmap str Z) : Prop :=
  map_Forall (λ _ v, 1 ≤ v) freq.

(** The real number a float stands for (0 for NaN and the infinities). *)
Definition B2R (f : float) : R :=
  match f with
  | S754_finite s m e =>
      ((if s then -1 else 1) * IZR (Z.pos m) * powerRZ 2 e)%R
  | _ => 0%R
  end.

(** The largest length of a CPython string ([sys.maxsize] on a 64-bit
    build): every [str] object satisfies [len(s) <= PY_SSIZE_T_MAX]. *)
Definition PY_SSIZE_T_MAX : Z := 2 ^ 63 - 1.

(** [x <= y] on floats: how the specification's closed interval is read. *)
Definition f_le (x y : float) : bool := SFleb x y.

(** The scorer of [main.py] on two strings and an [int], without the
    caches. *)
Definition cosine_uncached `{U : UnicodeData} (A B : str) (n : Z)
  : result float :=
  let wrap (r : result float) :=
    match r with
    | Ok v => Ok v
    | Raise e => Raise (PaperCheckException (MsgCosineFailed e))
    end in
  let text1 := normalize A in
  let text2 := normalize B in
  if bool_decide (text1 = []) || bool_decide (text2 = []) then Ok f_zero
  else
    match get_ngram_frequency_body (VStr text1) (VInt n) with
    | Raise e => wrap (Raise e)
    | Ok freq1 =>
        match get_ngram_frequency_body (VStr text2) (VInt n) with
        | Raise e => wrap (Raise e)
        | Ok freq2 =>
            if bool_decide (freq1 = ∅) || bool_decide (freq2 = ∅)
            then Ok f_zero
            else wrap (cosine_of_counters freq1 freq2)
        end
    end.

(** The statements of [mainTEST.py]'s scorer after its loop, given the
    counters: the magnitudes, the zero test and the division, over the dot
    product on the union of the keys. *)
Definition naive_of_counters (freq1 freq2 : gmap str Z) : result float :=
  match math_sqrt (sum_squares freq1) with
  | Raise e => Raise e
  | Ok magnitude1 =>
      match math_sqrt (sum_squares freq2) with
      | Raise e => Raise e
      | Ok magnitude2 =>
          if f_eq (f_mul magnitude1 magnitude2) f_zero then Ok f_zero
          else int_truediv (dot_over (dom freq1 ∪ dom freq2) freq1 freq2)
                 (f_mul magnitude1 magnitude2)
      end
  end.



(** An operating system for the examples: POSIX path names and a single
    directory [out], which exists and is writable. *)
Module PosixExample.

(** [s.rfind(c)], counted from [i] with [best] the last index found. *)
Fixpoint rfind_from (i : Z) (c : N) (s : str) (best : Z) : Z :=
  match s with
  | [] => best
  | x :: s' => rfind_from (i + 1) c s' (if (x =? c)%N then i else best)
  end.

Definition rfind (c : N) (s : str) : Z := rfind_from 0 c s (-1).

(** [s.rstrip('/')] *)
Fixpoint rstrip_sep (s : str) : str :=
  match s with
  | [] => []
  | x :: s' =>
      match rstrip_sep s' with
      | [] => if (x =? 47)%N then [] else [x]
      | t => x :: t
      end
  end.

(** [posixpath.dirname] *)
Definition dirname (p : str) : str :=
  let i := rfind 47%N p + 1 in
  let head := take (Z.to_nat i) p in
  if negb (bool_decide (head = []))
     && negb (bool_decide (head = replicate (length head) 47%N))
  then rstrip_sep head
  else head.

#[export] Instance os : OsEnv := {
  os_path_dirname := dirname;
  os_path_exists p := bool_decide (p = txt "out");
  os_access_R_OK p := bool_decide (p = txt "out");
  os_access_W_OK p := bool_decide (p = txt "out");
  open_for_writing p := true;
}.

End PosixExample.








(** [isinstance(n, int) and n >= 1] *)
Definition positive_int (n : pyval) : Prop := ∃ z, as_int n = Some z ∧ 1 ≤ z.


(** Steps 5 to 8 of the scorer on two counters, in binary64: the dot product
    over the n-grams of both counters, divided by the product of the square
    roots of the sums of the squared counts. *)
Definition computed_similarity (freq1 freq2 : gmap str Z) (s : float) : Prop :=
  ∃ dot sq1 sq2,
    float_of_int (sum_over (λ g, count_of freq1 g * count_of freq2 g)
                    (dom freq1 ∩ dom freq2)) = Ok dot
    ∧ float_of_int (msum (λ c, c ^ 2) freq1) = Ok sq1
    ∧ float_of_int (msum (λ c, c ^ 2) freq2) = Ok sq2
    ∧ s = f_div dot (f_mul (f_sqrt sq1) (f_sqrt sq2)).

(** Lower-casing keeps the word characters of [T] word characters: the
    lower case of any text made of word and white-space characters of [T]
    consists of word and white-space characters.  It fails of a text with
    U+0130, whose lower case contains the mark U+0307. *)
Definition lower_keeps_words `{U : UnicodeData} (T : str) : Prop :=
  ∀ w : str,
    (∀ c, c ∈ w → c ∈ T ∧ (is_word c = true ∨ is_space c = true)) →
    ∀ c, c ∈ str_lower w → is_word c = true ∨ is_space c = true.

(** Both caches hold at most [k] entries. *)
Definition caches_within (k : nat) (st : caches) : Prop :=
  (length (preprocess_cache st) ≤ k)%nat ∧ (length (ngram_cache st) ≤ k)%nat.

(** A computation keeps a property of the caches. *)
Definition preserves (P : caches → Prop) {A} (m : M A) : Prop :=
  ∀ st, P st → P (m st).2.

(** ** Reading a file and the whole check: [read_file], [run_check] *)

(** What [open(path, 'r', encoding='utf-8')] and [f.read()] answer. *)
Inductive read_answer :=
| Content (text : str)     (* the decoded text *)
| NotDecodable             (* [f.read()] raises [UnicodeDecodeError] *)
| NotOpened.               (* [open] raises [OSError] *)

(** What the file system answers to [read_file] at the time of the call. *)
Class FsEnv := {
  (** [os.path.getsize(path)]; [None] when it raises [OSError] *)
  os_path_getsize : str → option Z;
  read_utf8 : str → read_answer;
}.

(** The messages of the [PaperCheckException]s of [read_file]. *)
Inductive read_failure :=
| InvalidPath (m : message)    (* raised by [validate_file_path], passed on *)
| FileTooLarge (file_size : Z) (* "文件过大 (...字节)，超过10MB限制" *)
| FileEmpty                    (* "文件为空" *)
| FileBlank                    (* "文件内容为空或只包含空白字符" *)
| NotUtf8                      (* "文件编码不是UTF-8，无法读取" *)
| ReadFailed (cause : exn).    (* "读取文件时发生未知错误: ..." *)

(** The lines [run_check] prints. *)
Inductive line :=
| ReadingOriginal (path : pyval)     (* "正在读取原文文件: ..." *)
| ReadingPlagiarized (path : pyval)  (* "正在读取抄袭版文件: ..." *)
| Computing                          (* "正在计算文本相似度..." *)
| Writing (path : pyval)             (* "正在将结果写入输出文件: ..." *)
| Finished (rate : str)              (* "查重完成，重复率: ..." *)
| ReadError (m : read_failure)       (* "错误: ..." *)
| Error (m : message)                (* "错误: ..." *)
| UnknownError (e : exn).            (* "发生未知错误: ..." *)

(** How [run_check] ends: it returns, or [sys.exit(code)]. *)
Inductive outcome :=
| Returned
| SystemExit (code : Z).

(** [f"{x:.2f}"]: the exact value of [x] rounded to two decimals, ties to
    even, with both decimals written. *)
Definition format_2f (x : float) : str :=
  match x with
  | S754_nan => txt "nan"
  | S754_infinity s => if s then txt "-inf" else txt "inf"
  | S754_zero s => (if s then [45%N] else []) ++ txt "0.00"
  | S754_finite s m e =>
      let '(num, den) := ratio_of m e in
      let k := round_half_even (100 * num) den in
      (if s then [45%N] else [])
        ++ decimal_digits (k / 100)
        ++ [46%N; digit (k / 10 mod 10); digit (k mod 10)]
  end.

Section RunCheck.
Context {U : UnicodeData} {E : OsEnv} {F : FsEnv}.

(** [read_file(file_path)]: the content, or the message of the
    [PaperCheckException] it raises. *)
Definition read_file (file_path : pyval) : read_failure + str :=
  match validate_file_path file_path false with
  | Raise (PaperCheckException m) => inl (InvalidPath m)
  | Raise e => inl (ReadFailed e)
  | Ok _ =>
      match as_str file_path with
      | None => inl (ReadFailed TypeError) (* a validated path is a [str] *)
      | Some p =>
          match os_path_getsize p with
          | None => inl (ReadFailed OSError)
          | Some file_size =>
              if 10 * 1024 * 1024 <? file_size
              then inl (FileTooLarge file_size)
              else if file_size =? 0 then inl FileEmpty
              else
                match read_utf8 p with
                | NotOpened => inl (ReadFailed OSError)
                | NotDecodable => inl NotUtf8
                | Content content =>
                    if bool_decide (strip content = []) then inl FileBlank
                    else inr content
                end
          end
      end
  end.

(** The line printed for an exception caught by [run_check]. *)
Definition error_line (e : exn) : line :=
  match e with
  | PaperCheckException m => Error m
  | e => UnknownError e
  end.

(** [run_check(original_path, plagiarized_path, output_path)] of [main.py]:
    how it ends, what it prints, and the caches and files it leaves. *)
Definition run_check (original_path plagiarized_path output_path : pyval)
    (st : caches) (files : gmap str str)
  : outcome * list line * caches * gmap str str :=
  let out := [ReadingOriginal original_path] in
  match read_file original_path with
  | inl m => (SystemExit 1, out ++ [ReadError m], st, files)
  | inr original_text =>
      let out := out ++ [ReadingPlagiarized plagiarized_path] in
      match read_file plagiarized_path with
      | inl m => (SystemExit 1, out ++ [ReadError m], st, files)
      | inr plagiarized_text =>
          let out := out ++ [Computing] in
          match calculate_cosine_similarity (VStr original_text)
                  (VStr plagiarized_text) (VInt 2) st with
          | (Raise e, st') => (SystemExit 1, out ++ [error_line e], st', files)
          | (Ok similarity, st') =>
              let out := out ++ [Writing output_path] in
              match write_result (VFloat similarity) output_path files with
              | (Raise e, files') =>
                  (SystemExit 1, out ++ [error_line e], st', files')
              | (Ok _, files') =>
                  (Returned, out ++ [Finished (format_2f similarity)], st',
                   files')
              end
          end
      end
  end.

End RunCheck.

(** An operating system for the examples of [run_check]: POSIX path names,
    two readable files and a writable directory [out]. *)
Module CheckExample.

#[export] Instance os : OsEnv := {
  os_path_dirname := PosixExample.dirname;
  os_path_exists p :=
    bool_decide (p = txt "a.txt") || bool_decide (p = txt "b.txt")
    || bool_decide (p = txt "out");
  os_access_R_OK p :=
    bool_decide (p = txt "a.txt") || bool_decide (p = txt "b.txt");
  os_access_W_OK p := bool_decide (p = txt "out");
  open_for_writing p := true;
}.

#[export] Instance fs : FsEnv := {
  os_path_getsize p :=
    if bool_decide (p = txt "a.txt") then Some 11
    else if bool_decide (p = txt "b.txt") then Some 10
    else None;
  read_utf8 p :=
    if bool_decide (p = txt "a.txt") then Content (txt "hello world")
    else if bool_decide (p = txt "b.txt") then Content (txt "hello word")
    else NotOpened;
}.

End CheckExample.

(** * Properties *)

(** ** Caches never change what the functions return *)

Section LruCacheFacts.
Context {K V : Type}.
Variable key_hashable : K → bool.
Variable key_eq : K → K → bool.
Variable maxsize : nat.
Variable f : K → result V.

Lemma cache_find_Some k c (hit : K * V) rest :
  cache_find key_eq k c = Some (hit, rest) →
  key_eq hit.1 k = true ∧ hit ∈ c ∧ rest ⊆ c.
Proof.
  revert hit rest. induction c as [|e c IH]; intros hit rest; simpl; [done|].
  destruct (key_eq e.1 k) eqn:He.
  - intros [= <- <-]. set_solver.
  - destruct (cache_find key_eq k c) as [[hit' rest']|]; [|done].
    intros [= <- <-]. destruct (IH _ _ eq_refl) as (? & ? & ?). set_solver.
Qed.

Lemma cache_find_None k c :
  cache_find key_eq k c = None → ∀ e : K * V, e ∈ c → key_eq e.1 k = false.
Proof.
  induction c as [|e c IH]; simpl; [set_solver|].
  destruct (key_eq e.1 k) eqn:He; [done|].
  destruct (cache_find key_eq k c) as [[? ?]|]; [done|].
  intros _ e' [->|?]%elem_of_cons; auto.
Qed.

Lemma removelast_subseteq (c : list (K * V)) : removelast c ⊆ c.
Proof.
  induction c as [|e [|e' c] IH]; simpl; [done|set_solver|].
  simpl in IH. set_solver.
Qed.

Lemma lru_cache_valid k c :
  cache_valid f c → cache_valid f (lru_cache key_hashable key_eq maxsize f k c).2.
Proof.
  intros Hc. unfold lru_cache.
  destruct (key_hashable k); [|done].
  destruct (cache_find key_eq k c) as [[hit rest]|] eqn:Hfind.
  - apply cache_find_Some in Hfind as (_ & Hin & Hsub).
    intros k' v' [Heq|?]%elem_of_cons; apply Hc; [by rewrite Heq|auto].
  - destruct (f k) as [v|e] eqn:Hf; [|done].
    intros k' v' [[= -> ->]|Hin]%elem_of_cons; [done|].
    apply Hc. unfold cache_store in *. simpl in *.
    case_decide; [by apply removelast_subseteq|done].
Qed.

(** On a key that [==] identifies only with keys of the same outcome, the
    wrapper returns what the function returns. *)
Lemma lru_cache_result k c :
  cache_valid f c →
  key_hashable k = true →
  (∀ k' v, f k' = Ok v → key_eq k' k = true → f k = Ok v) →
  (lru_cache key_hashable key_eq maxsize f k c).1 = f k.
Proof.
  intros Hc Hh Heq. unfold lru_cache. rewrite Hh.
  destruct (cache_find key_eq k c) as [[[k' v] rest]|] eqn:Hfind.
  - apply cache_find_Some in Hfind as (Hk & Hin & _). simpl in *.
    symmetry. eapply Heq; [|done]. by apply Hc.
  - by destruct (f k).
Qed.

End LruCacheFacts.


Section CachedCalls.
Context {U : UnicodeData}.

Lemma coherent_no_caches : coherent no_caches.
Proof. split; intros k v Hin; simpl in Hin; set_solver. Qed.

Lemma preprocess_text_coherent text st :
  coherent st → coherent (preprocess_text text st).2.
Proof.
  intros [H1 H2]. unfold preprocess_text.
  pose proof (lru_cache_valid hashable py_eq 128 _ text _ H1) as Hv.
  destruct (lru_cache _ _ _ _ _ _) as [r c]. by split.
Qed.

Lemma get_ngram_frequency_coherent text n st :
  coherent st → coherent (get_ngram_frequency text n st).2.
Proof.
  intros [H1 H2]. unfold get_ngram_frequency.
  pose proof (lru_cache_valid key2_hashable key2_eq 128 _ (text, n) _ H2) as Hv.
  destruct (lru_cache _ _ _ _ _ _) as [r c]. by split.
Qed.

Lemma py_eq_str k s : py_eq k (VStr s) = true → k = VStr s.
Proof.
  destruct k as [| | |f|t|]; simpl; try done.
  - by destruct (float_integer_value f).
  - by intros ->%bool_decide_eq_true.
Qed.

Lemma py_eq_int k k' z :
  as_int k' = Some z → py_eq k k' = true → as_int k = None ∨ as_int k = Some z.
Proof.
  intros Hz. destruct k as [|b| y|f|t|]; destruct k' as [|b'|y'|f'|t'|];
    simpl in *; try done; auto; simplify_eq; intros ?%Z.eqb_eq; auto with f_equal.
Qed.

(** On a string the cached normaliser returns the normalised string. *)
Lemma preprocess_text_str t st :
  coherent st → (preprocess_text (VStr t) st).1 = Ok (normalize t).
Proof.
  intros [H1 _]. unfold preprocess_text.
  pose proof (lru_cache_result hashable py_eq 128 preprocess_text_body
                (VStr t) _ H1 eq_refl) as Hr.
  destruct (lru_cache _ _ _ _ _ _) as [r c]. simpl in *. apply Hr.
  by intros k' v Hk' ->%py_eq_str.
Qed.

(** On a string and an [int] the cached extractor returns what its body
    computes. *)
Lemma get_ngram_frequency_int t z st :
  coherent st →
  (get_ngram_frequency (VStr t) (VInt z) st).1
  = get_ngram_frequency_body (VStr t) (VInt z).
Proof.
  intros [_ H2]. unfold get_ngram_frequency.
  pose proof (lru_cache_result key2_hashable key2_eq 128
                (λ k, get_ngram_frequency_body k.1 k.2)
                (VStr t, VInt z) _ H2 eq_refl) as Hr.
  destruct (lru_cache _ _ _ _ _ _) as [r c]. simpl in *. apply Hr.
  intros [k1 k2] v Hbody [Hs Hn]%andb_true_iff. simpl in *.
  apply py_eq_str in Hs as ->.
  eapply (py_eq_int _ _ z) in Hn as [Hn|Hn]; [| |done];
    unfold get_ngram_frequency_body in *; simpl in *; rewrite Hn in Hbody;
    [done|by rewrite <- Hbody].
Qed.

End CachedCalls.

(** ** N-gram counts *)


Lemma filter_eq_nil_notin (l : list str) (g : str) :
  g ∉ l → filter (λ x, x = g) l = [].
Proof.
  induction l as [|x l IH]; [done|]. intros Hnin.
  rewrite filter_cons_False by set_solver. apply IH. set_solver.
Qed.

Lemma filter_nil_none {A} (P : A → Prop) `{∀ x, Decision (P x)} (l : list A) :
  (∀ x, x ∈ l → ¬ P x) → filter P l = [].
Proof.
  induction l as [|x l IH]; [done|]. intros Hnin.
  rewrite filter_cons_False by (apply Hnin; set_solver). apply IH.
  intros y Hy. apply Hnin. set_solver.
Qed.

Lemma foldl_incr_lookup (l : list str) (m : gmap str Z) (g : str) :
  foldl incr m l !! g =
    if decide (g ∈ l)
    then Some (count_of m g + Z.of_nat (length (filter (λ x, x = g) l)))
    else m !! g.
Proof.
  revert m. induction l as [|x l IH]; intros m.
  - destruct (decide (g ∈ [])) as [Hin|]; [|done]. by apply elem_of_nil in Hin.
  - cbn [foldl]. rewrite IH. clear IH.
    destruct (decide (x = g)) as [->|Hne].
    + rewrite filter_cons_True by done.
      destruct (decide (g ∈ g :: l)) as [_|Hnin]; [|set_solver].
      unfold incr, count_of. rewrite lookup_insert_eq. cbn [default length].
      destruct (decide (g ∈ l)) as [|Hnin]; f_equal; unfold Datatypes.id; [lia|].
      rewrite filter_eq_nil_notin by done. simpl. lia.
    + rewrite filter_cons_False by done.
      unfold incr at 1 2, count_of at 1. rewrite lookup_insert_ne by done.
      destruct (decide (g ∈ l)), (decide (g ∈ x :: l)); set_solver.
Qed.

Lemma count_ngrams_windows (text : str) (n : Z) :
  count_ngrams text n
  = foldl incr ∅ ((λ i, slice text i (i + n)) <$> range (len text - n + 1)).
Proof. unfold count_ngrams. by rewrite foldl_fmap. Qed.

Lemma windows_nat (text : str) (n : nat) :
  (λ i, slice text i (i + Z.of_nat n)) <$> range (len text - Z.of_nat n + 1)
  = (λ i, take n (drop i text)) <$> seq 0 (length text + 1 - n).
Proof.
  unfold range, len. rewrite <- list_fmap_compose.
  replace (Z.to_nat (Z.of_nat (length text) - Z.of_nat n + 1))
    with (length text + 1 - n)%nat by lia.
  apply list_fmap_ext. intros _ i _. simpl. unfold slice.
  by replace (Z.to_nat (Z.of_nat i + Z.of_nat n - Z.of_nat i)) with n by lia;
    rewrite Nat2Z.id.
Qed.

Lemma count_ngrams_lookup (text : str) (n : nat) (g : str) :
  count_ngrams text (Z.of_nat n) !! g =
    if decide (0 < occurrences text n g) then Some (occurrences text n g)
    else None.
Proof.
  rewrite count_ngrams_windows, windows_nat, foldl_incr_lookup.
  unfold occurrences, count_of. rewrite lookup_empty. simpl.
  set (offs := seq 0 (length text + 1 - n)).
  assert (length (filter (λ x, x = g) ((λ i, take n (drop i text)) <$> offs))
          = length (filter (λ i, take n (drop i text) = g) offs)) as ->.
  { induction offs as [|i offs IH]; [done|]. rewrite fmap_cons.
    destruct (decide (take n (drop i text) = g)).
    - rewrite !filter_cons_True by done. simpl. by rewrite IH.
    - by rewrite !filter_cons_False by done. }
  destruct (decide (g ∈ _)) as [Hin|Hnin].
  - rewrite decide_True; [done|].
    apply list_elem_of_fmap in Hin as (i & Hi & Hin).
    assert (i ∈ filter (λ i, take n (drop i text) = g) offs) as Hf
      by (apply list_elem_of_filter; done).
    destruct (filter _ offs); [set_solver|simpl; lia].
  - rewrite decide_False; [done|].
    assert (filter (λ i, take n (drop i text) = g) offs = []) as ->;
      [|simpl; lia].
    apply filter_nil_none. intros i Hi Hg. apply Hnin.
    apply list_elem_of_fmap. eauto.
Qed.

(** C4: on a text at least [n] long, [ngram_frequencies(text, n)] maps every
    substring of length [n] starting at an offset [0 <= i <= len(text) - n]
    to the number of such offsets at which it occurs and has no other key;
    on ["hello world"] with [n = 2] it is the table of the specification.
    Holds for every text, normalised or not, and whatever the cache holds. *)
Theorem ngram_frequencies_counts `{U : UnicodeData}
    (st : caches) (text : str) (n : Z) :
  coherent st → 1 ≤ n → n ≤ len text →
  ∃ freq,
    (get_ngram_frequency (VStr text) (VInt n) st).1 = Ok freq
    ∧ (∀ g, freq !! g =
         if decide (0 < occurrences text (Z.to_nat n) g)
         then Some (occurrences text (Z.to_nat n) g) else None)
    ∧ (get_ngram_frequency (VStr (txt "hello world")) (VInt 2) st).1
      = Ok hello_world_bigrams.
Proof.
  intros Hst Hn Hlen. exists (count_ngrams text n).
  rewrite !get_ngram_frequency_int by done. split; [|split].
  - unfold get_ngram_frequency_body. simpl.
    destruct (n <? 1) eqn:H1; [lia|]. destruct (len text <? n) eqn:H2; [lia|done].
  - intros g. rewrite <- (Z2Nat.id n) at 1 by lia. apply count_ngrams_lookup.
  - vm_compute. reflexivity.
Qed.

Lemma ngram_frequencies_counts_witness :
  ∃ freq,
    (get_ngram_frequency (VStr (txt "abab")) (VInt 2) no_caches).1 = Ok freq
    ∧ (∀ g, freq !! g =
         if decide (0 < occurrences (txt "abab") (Z.to_nat 2) g)
         then Some (occurrences (txt "abab") (Z.to_nat 2) g) else None)
    ∧ (get_ngram_frequency (VStr (txt "hello world")) (VInt 2) no_caches).1
      = Ok hello_world_bigrams.
Proof.
  apply (ngram_frequencies_counts (U := PyFragment.data) no_caches (txt "abab") 2).
  - apply coherent_no_caches.
  - lia.
  - vm_compute. discriminate.
Defined.

(** ** The normaliser *)

Section NormalizerFacts.
Context {U : UnicodeData}.

Lemma collapse_spaces_elem b t c :
  c ∈ collapse_spaces b t → c = 32%N ∨ (c ∈ t ∧ is_space c = false).
Proof.
  revert b. induction t as [|x t IH]; intros b; simpl; [set_solver|].
  destruct (is_space x) eqn:Hx.
  - destruct b; [|intros [->|Hc]%elem_of_cons; [by left|]];
      intros; destruct (IH true) as [|[? ?]]; auto; right; set_solver.
  - intros [->|Hc]%elem_of_cons; [right; set_solver|].
    destruct (IH false Hc) as [|[? ?]]; auto; right; set_solver.
Qed.

Lemma lstrip_elem t c : c ∈ lstrip t → c ∈ t.
Proof.
  induction t as [|x t IH]; simpl; [done|].
  destruct (is_space x); set_solver.
Qed.

Lemma rstrip_elem t c : c ∈ rstrip t → c ∈ t.
Proof.
  induction t as [|x t IH]; simpl; [done|].
  destruct (rstrip t) as [|r rs]; [destruct (is_space x)|]; set_solver.
Qed.

Lemma lstrip_head t c : head (lstrip t) = Some c → is_space c = false.
Proof.
  induction t as [|x t IH]; simpl; [done|].
  destruct (is_space x) eqn:Hx; [done|]. by intros [= <-].
Qed.

Lemma rstrip_head t c :
  (∀ c, head t = Some c → is_space c = false) →
  head (rstrip t) = Some c → is_space c = false.
Proof.
  destruct t as [|x t]; simpl; [done|]. intros Hx Hh.
  assert (is_space x = false) as Hxf by (by apply Hx).
  rewrite Hxf in Hh. destruct (rstrip t); simpl in Hh; by simplify_eq.
Qed.

Lemma rstrip_last t c : last (rstrip t) = Some c → is_space c = false.
Proof.
  induction t as [|x t IH]; simpl; [done|].
  destruct (rstrip t) as [|r rs] eqn:Hr.
  - destruct (is_space x) eqn:Hx; simpl; [done|]. by intros [= <-].
  - rewrite last_cons. destruct (last (r :: rs)) eqn:Hl.
    + intros [= <-]. auto.
    + by apply last_None in Hl.
Qed.

Lemma spaced_collapse `{!UnicodeLaws U} b t :
  spaced b (collapse_spaces b t) = true.
Proof.
  revert b. induction t as [|x t IH]; intros b; simpl; [done|].
  destruct (is_space x) eqn:Hx.
  - destruct b; [done|]. simpl. unfold is_space at 1.
    rewrite space_is_space. simpl. apply IH.
  - simpl. rewrite Hx. apply IH.
Qed.

Lemma spaced_lstrip b t : spaced b t = true → spaced false (lstrip t) = true.
Proof.
  revert b. induction t as [|x t IH]; intros b; simpl; [done|].
  destruct (is_space x) eqn:Hx.
  - intros [_ Ht]%andb_true_iff. eauto.
  - simpl. by rewrite Hx.
Qed.

Lemma spaced_rstrip b t : spaced b t = true → spaced b (rstrip t) = true.
Proof.
  revert b. induction t as [|x t IH]; intros b; simpl; [done|].
  destruct (rstrip t) as [|r rs] eqn:Hr.
  - destruct (is_space x) eqn:Hx; simpl; [done|]. by rewrite Hx.
  - rewrite <- Hr in *. simpl. destruct (is_space x) eqn:Hx.
    + intros [Hb Ht]%andb_true_iff. rewrite Hb. simpl. by apply IH.
    + by apply IH.
Qed.

Lemma spaced_weaken t : spaced true t = true → spaced false t = true.
Proof.
  destruct t as [|x t]; simpl; [done|]. destruct (is_space x); [|done].
  by rewrite andb_false_r.
Qed.

Lemma spaced_collapse_id b t : spaced b t = true → collapse_spaces b t = t.
Proof.
  revert b. induction t as [|x t IH]; intros b; simpl; [done|].
  destruct (is_space x) eqn:Hx.
  - intros [[->%N.eqb_eq Hb]%andb_true_iff Ht]%andb_true_iff.
    destruct b; [done|]. f_equal. by apply IH.
  - intros Ht. f_equal. by apply IH.
Qed.

Lemma spaced_single_spaced `{!UnicodeLaws U} b t :
  spaced b t = true → single_spaced t.
Proof.
  intros Ht. split.
  - revert b Ht. induction t as [|x t IH]; intros b; simpl; [set_solver|].
    destruct (is_space x) eqn:Hx.
    + intros [[->%N.eqb_eq _]%andb_true_iff Ht]%andb_true_iff c.
      intros [->|Hc]%elem_of_cons; eauto.
    + intros Ht c [->|Hc]%elem_of_cons; [congruence|eauto].
  - revert b Ht. induction t as [|x t IH]; intros b Ht i; [done|].
    simpl in Ht. destruct i as [|i]; simpl.
    + intros [= ->]. unfold is_space in Ht at 1. rewrite space_is_space in Ht.
      apply andb_true_iff in Ht as [_ Ht]. destruct t as [|y t]; [done|].
      simpl in *. intros [= ->]. unfold is_space in Ht at 1.
      rewrite space_is_space in Ht. by rewrite andb_false_r in Ht.
    + destruct (is_space x); [apply andb_true_iff in Ht as [_ Ht]|]; eauto.
Qed.

Lemma lstrip_id t :
  (∀ c, head t = Some c → is_space c = false) → lstrip t = t.
Proof. destruct t as [|x t]; simpl; [done|]. intros H. by rewrite H. Qed.

Lemma rstrip_id t :
  (∀ c, last t = Some c → is_space c = false) → rstrip t = t.
Proof.
  induction t as [|x t IH]; simpl; [done|]. intros H.
  destruct t as [|y t]; [simpl; by rewrite H|].
  rewrite IH; [done|]. intros c Hc. apply H. by rewrite last_cons, Hc.
Qed.

(** The text [strip] returns has no white space at either end. *)
Lemma strip_trimmed t : trimmed (strip t).
Proof.
  split; intros c Hc.
  - eapply rstrip_head; [|done]. apply lstrip_head.
  - by eapply rstrip_last.
Qed.

Lemma normalize_spaced `{!UnicodeLaws U} t : spaced false (normalize t) = true.
Proof.
  unfold normalize, strip.
  eapply spaced_rstrip, spaced_lstrip, spaced_collapse.
Qed.

(** Collapsing and stripping an already collapsed and stripped text changes
    nothing. *)
Lemma strip_collapse_fixed y :
  spaced false y = true → trimmed y → strip (collapse_spaces false y) = y.
Proof.
  intros Hs [Hh Hl]. rewrite spaced_collapse_id by done.
  unfold strip. rewrite lstrip_id by done. by apply rstrip_id.
Qed.

End NormalizerFacts.

Section LowerFacts.
Context {U : UnicodeData} `{!UnicodeLaws U}.

Notation nospace := (Forall (λ c, Py_UNICODE_ISSPACE c = false)).

Lemma str_lower_nil : str_lower [] = [].
Proof. by apply (str_lower_word []). Qed.

Lemma str_lower_space_cons c t :
  is_space c = true → str_lower (c :: t) = c :: str_lower t.
Proof.
  intros Hc. by rewrite <- (app_nil_l (c :: t)), str_lower_split, str_lower_nil.
Qed.

(** Every text is a word without white space, followed by nothing or by a
    white-space character and the rest. *)
Lemma word_decompose (t : str) :
  ∃ w rest, t = w ++ rest ∧ nospace w
    ∧ (rest = [] ∨ ∃ c r, rest = c :: r ∧ is_space c = true).
Proof.
  induction t as [|x t (w & rest & -> & Hw & Hrest)].
  - exists [], []. auto.
  - destruct (is_space x) eqn:Hx.
    + exists [], (x :: w ++ rest). split_and!; [done|done|]. right. eauto.
    + exists (x :: w), rest. split_and!; [done|by constructor|done].
Qed.

Lemma collapse_spaces_word b w r :
  nospace w → w ≠ [] →
  collapse_spaces b (w ++ r) = w ++ collapse_spaces false r.
Proof.
  intros Hw. revert b. induction Hw as [|x w Hx Hw IH]; intros b Hne; [done|].
  simpl. unfold is_space. rewrite Hx. f_equal.
  destruct w as [|y w]; [done|]. by apply IH.
Qed.

Lemma collapse_spaces_nospace b w : nospace w → collapse_spaces b w = w.
Proof.
  intros Hw. revert b. induction Hw as [|x w Hx Hw IH]; intros b; [done|].
  simpl. unfold is_space. rewrite Hx. by rewrite IH.
Qed.

Lemma str_lower_collapse_spaces b t :
  str_lower (collapse_spaces b t) = collapse_spaces b (str_lower t).
Proof.
  remember (length t) as n eqn:Hn. revert b t Hn.
  induction n as [n IH] using lt_wf_ind. intros b t ->.
  destruct (word_decompose t) as (w & rest & -> & Hw & [->|(c & r & -> & Hc)]).
  - rewrite app_nil_r, !collapse_spaces_nospace; [done| |done].
    by apply str_lower_word.
  - assert (Hr : ∀ b', str_lower (collapse_spaces b' r)
                       = collapse_spaces b' (str_lower r)).
    { intros b'. eapply IH; [|done]. rewrite length_app. simpl. lia. }
    rewrite (str_lower_split w c r) by done.
    destruct w as [|x w].
    + rewrite str_lower_nil. simpl. rewrite Hc.
      destruct b; [done|]. rewrite str_lower_space_cons, Hr; [done|].
      apply space_is_space.
    + assert (str_lower (x :: w) ≠ []) as Hne
        by (intros E; by apply (str_lower_word (x :: w)) in E).
      rewrite !collapse_spaces_word; [|by apply str_lower_word|done..].
      cbn [collapse_spaces]. rewrite Hc.
      rewrite (str_lower_split (x :: w)) by apply space_is_space.
      by rewrite Hr.
Qed.

Lemma str_lower_word_head w rest c :
  nospace w → w ≠ [] → head (str_lower w ++ rest) = Some c →
  is_space c = false.
Proof.
  intros Hw Hne. destruct (str_lower_word w Hw) as [Hl Hnil].
  destruct (str_lower w) as [|y l] eqn:E.
  { destruct Hne. by apply Hnil. }
  simpl. intros [= <-]. apply Forall_inv in Hl. exact Hl.
Qed.

Lemma str_lower_lstrip t : str_lower (lstrip t) = lstrip (str_lower t).
Proof.
  induction t as [|x t IH]; [simpl; by rewrite str_lower_nil|]. simpl.
  destruct (is_space x) eqn:Hx.
  - rewrite str_lower_space_cons by done. simpl. by rewrite Hx.
  - symmetry. apply lstrip_id. intros c.
    destruct (word_decompose (x :: t))
      as (w & rest & Ht & Hw & [->|(c' & r & -> & Hc)]).
    + rewrite app_nil_r in Ht. subst w.
      rewrite <- (app_nil_r (str_lower _)). by apply str_lower_word_head.
    + rewrite Ht, str_lower_split by done. apply str_lower_word_head; [done|].
      intros ->. simplify_eq/=. congruence.
Qed.

Lemma rstrip_app a b :
  rstrip (a ++ b) = match rstrip b with [] => rstrip a | r => a ++ r end.
Proof.
  induction a as [|x a IH]; simpl; [by destruct (rstrip b)|].
  rewrite IH. destruct (rstrip b) as [|r rs]; [done|].
  by destruct (a ++ r :: rs) eqn:E; [destruct a|].
Qed.

Lemma rstrip_nospace w : nospace w → rstrip w = w.
Proof.
  induction 1 as [|x w Hx Hw IH]; simpl; [done|]. rewrite IH.
  unfold is_space. rewrite Hx. by destruct w.
Qed.

Lemma str_lower_not_nil t : t ≠ [] → str_lower t ≠ [].
Proof.
  intros Hne. destruct (word_decompose t)
    as (w & rest & -> & Hw & [->|(c & r & -> & Hc)]).
  - rewrite app_nil_r in *. intros E. by apply (str_lower_word w) in E.
  - rewrite str_lower_split by done. by destruct (str_lower w).
Qed.

Lemma str_lower_rstrip t : str_lower (rstrip t) = rstrip (str_lower t).
Proof.
  remember (length t) as n eqn:Hn. revert t Hn.
  induction n as [n IH] using lt_wf_ind. intros t ->.
  destruct (word_decompose t) as (w & rest & -> & Hw & [->|(c & r & -> & Hc)]).
  - rewrite app_nil_r, !rstrip_nospace; [done| |done]. by apply str_lower_word.
  - assert (Hr : str_lower (rstrip r) = rstrip (str_lower r)).
    { eapply IH; [|done]. rewrite length_app. simpl. lia. }
    rewrite str_lower_split, !rstrip_app by done. simpl. rewrite <- Hr, Hc.
    destruct (rstrip r) as [|y ys] eqn:E.
    + rewrite str_lower_nil, !rstrip_nospace; [done| |done].
      by apply str_lower_word.
    + assert (str_lower (y :: ys) ≠ []) as Hne by by apply str_lower_not_nil.
      destruct (str_lower (y :: ys)) as [|z zs] eqn:E'; [done|].
      by rewrite str_lower_split, E'.
Qed.

(** Lower-casing commutes with the white-space stage of the normaliser. *)
Lemma str_lower_strip_collapse t :
  str_lower (strip (collapse_spaces false t))
  = strip (collapse_spaces false (str_lower t)).
Proof.
  unfold strip.
  by rewrite str_lower_rstrip, str_lower_lstrip, str_lower_collapse_spaces.
Qed.

(** The normalised text is in lower case. *)
Lemma normalize_lower t : str_lower (normalize t) = normalize t.
Proof.
  unfold normalize. by rewrite str_lower_strip_collapse, str_lower_idemp.
Qed.

End LowerFacts.

(** The tables of [PyFragment] satisfy the laws. *)
Module PyFragmentFacts.
Import PyFragment.

Ltac cases_N :=
  unfold lower_char, isspace, isalnum, between in *;
  repeat match goal with
    | |- context [(?a <=? ?b)%N] => destruct (N.leb_spec a b); try lia
    | |- context [(?a =? ?b)%N] => destruct (N.eqb_spec a b); try lia
    | H : context [(?a <=? ?b)%N] |- _ => destruct (N.leb_spec a b); try lia
    | H : context [(?a =? ?b)%N] |- _ => destruct (N.eqb_spec a b); try lia
    end;
  simpl in *; try done; try lia.

Lemma lower_char_space c : isspace c = true → lower_char c = [c].
Proof. intros H. cases_N. Qed.

Lemma lower_char_nospace c :
  isspace c = false → Forall (λ c', isspace c' = false) (lower_char c).
Proof.
  intros H. unfold lower_char.
  destruct (between 65 c 90) eqn:E1; [|destruct (c =? 304)%N eqn:E2].
  - constructor; [|done]. clear H. cases_N.
  - by repeat constructor.
  - by repeat constructor.
Qed.

Lemma lower_char_not_nil c : lower_char c ≠ [].
Proof.
  unfold lower_char. by destruct (between 65 c 90), (c =? 304)%N.
Qed.

Lemma lower_char_fixed c c' : c' ∈ lower_char c → lower_char c' = [c'].
Proof.
  unfold lower_char at 1.
  destruct (between 65 c 90) eqn:E1; [|destruct (c =? 304)%N eqn:E2].
  - intros ->%list_elem_of_singleton. cases_N.
  - intros [->|[->|?]%elem_of_cons]%elem_of_cons; [done|done|set_solver].
  - intros ->%list_elem_of_singleton. unfold lower_char. by rewrite E1, E2.
Qed.

Lemma lower_fixed t : (∀ c, c ∈ t → lower_char c = [c]) → lower t = t.
Proof.
  unfold lower. induction t as [|x t IH]; intros H; [done|].
  rewrite bind_cons, H, IH by set_solver. done.
Qed.

#[export] Instance laws : UnicodeLaws data.
Proof.
  split; simpl.
  - done.
  - intros t. unfold lower. induction t as [|x t IH]; [done|].
    rewrite bind_cons, bind_app, IH. f_equal.
    apply lower_fixed. intros c. apply lower_char_fixed.
  - intros a c b Hc. unfold lower.
    by rewrite bind_app, bind_cons, lower_char_space.
  - intros w Hw. unfold lower. split.
    + induction Hw as [|x w Hx Hw IH]; [done|].
      rewrite bind_cons. apply Forall_app. split; [|done].
      by apply lower_char_nospace.
    + destruct w as [|x w]; [done|]. rewrite bind_cons.
      pose proof (lower_char_not_nil x). split; [|done].
      by destruct (lower_char x).
Qed.

End PyFragmentFacts.

(** ** Normal form of the normalised text: C5 *)

(** C5 as stated fails: the lower case of U+0130 (LATIN CAPITAL LETTER I WITH
    DOT ABOVE, a letter) is U+0069 U+0307, and U+0307 (COMBINING DOT ABOVE) is
    not a word character; it is produced after the non-word characters were
    removed. *)
Lemma normalized_invariant_fails :
  ¬ ∀ T : str,
      normalized_text (U := PyFragment.data) (normalize (U := PyFragment.data) T).
Proof.
  intros H. destruct (H [304%N]) as [Hw _].
  destruct (Hw 775%N) as [Hc|Hc]; [|by vm_compute in Hc|by vm_compute in Hc].
  vm_compute. set_solver.
Qed.

Section NormalizeTheorems.
Context {U : UnicodeData} `{!UnicodeLaws U}.

Lemma normalize_elem T c :
  c ∈ normalize T →
  c = 32%N ∨ (is_space c = false ∧ c ∈ str_lower (remove_non_word T)).
Proof.
  unfold normalize, strip. intros Hc%rstrip_elem%lstrip_elem.
  apply collapse_spaces_elem in Hc. tauto.
Qed.

Lemma remove_non_word_fixed y :
  only_words_and_spaces y → remove_non_word y = y.
Proof.
  unfold remove_non_word. induction y as [|x y IH]; intros Hy; [done|].
  rewrite filter_cons_True, IH; [done|intros c Hc; apply Hy; set_solver|].
  destruct (Hy x) as [->| ->]; [set_solver|done|].
  unfold is_space. by rewrite space_is_space, orb_true_r.
Qed.

(** The normaliser leaves alone a normalised text made of word characters
    and spaces. *)
Lemma normalize_fixed T :
  only_words_and_spaces (normalize T) → normalize (normalize T) = normalize T.
Proof.
  intros Hw. unfold normalize at 1.
  rewrite remove_non_word_fixed, normalize_lower by done.
  apply strip_collapse_fixed; [apply normalize_spaced|apply strip_trimmed].
Qed.

End NormalizeTheorems.


(** ** Idempotence of the normaliser: C8 *)

(** C8 as stated fails on U+0130: its normal form is U+0069 U+0307, whose
    normal form is U+0069. *)
Lemma normalize_not_idempotent :
  let '(r1, st1) :=
    preprocess_text (U := PyFragment.data) (VStr [304%N]) no_caches in
  let '(r2, _) :=
    preprocess_text (U := PyFragment.data) (VStr [105; 775]%N) st1 in
  r1 = Ok [105; 775]%N ∧ r2 = Ok [105%N] ∧ r2 ≠ r1.
Proof. vm_compute. by split_and!. Qed.

(** C8 (amended): normalising a normalised text returns it unchanged,
    whenever the normalised text consists of word characters and spaces
    only. *)
Theorem normalize_idempotent `{U : UnicodeData} (st : caches) (T : str) :
  UnicodeLaws U → coherent st → only_words_and_spaces (normalize T) →
  ∃ y st1 st2,
    preprocess_text (VStr T) st = (Ok y, st1)
    ∧ preprocess_text (VStr y) st1 = (Ok y, st2).
Proof.
  intros HU Hst Hw.
  pose proof (preprocess_text_str T st Hst) as H1.
  pose proof (preprocess_text_coherent (VStr T) st Hst) as Hst1.
  destruct (preprocess_text (VStr T) st) as [r1 st1]. simpl in *. subst r1.
  pose proof (preprocess_text_str (normalize T) st1 Hst1) as H2.
  destruct (preprocess_text (VStr (normalize T)) st1) as [r2 st2] eqn:E2.
  simpl in *. subst r2. exists (normalize T), st1, st2. split; [done|].
  rewrite E2. by rewrite normalize_fixed.
Qed.

Section IdempotenceWitness.
#[local] Existing Instance PyFragment.data.

Lemma normalize_idempotent_witness :
  ∃ y st1 st2,
    preprocess_text (VStr (txt " Hello,  World! ")) no_caches = (Ok y, st1)
    ∧ preprocess_text (VStr y) st1 = (Ok y, st2).
Proof.
  apply (normalize_idempotent no_caches).
  - exact PyFragmentFacts.laws.
  - exact coherent_no_caches.
  - intros c Hc. vm_compute in Hc.
    apply list_elem_of_In in Hc. simpl in Hc.
    repeat (destruct Hc as [<-|Hc]; [vm_compute; auto|]). done.
Defined.

End IdempotenceWitness.

(** ** Sums over counters *)

Lemma Zsum_app l k : Zsum (l ++ k) = Zsum l + Zsum k.
Proof. unfold Zsum. induction l as [|x l IH]; simpl; lia. Qed.

Lemma Zsum_perm l k : l ≡ₚ k → Zsum l = Zsum k.
Proof. unfold Zsum. induction 1; simpl; lia. Qed.

Lemma Zsum_zero l : (∀ x, x ∈ l → x = 0) → Zsum l = 0.
Proof.
  unfold Zsum. induction l as [|x l IH]; intros H; simpl; [done|].
  rewrite (H x), IH by set_solver. done.
Qed.

Lemma Zsum_nonneg l : (∀ x, x ∈ l → 0 ≤ x) → 0 ≤ Zsum l.
Proof.
  unfold Zsum. induction l as [|x l IH]; intros H; simpl; [done|].
  assert (0 ≤ x) by (apply H; set_solver).
  assert (0 ≤ foldr Z.add 0 l) by (apply IH; set_solver). lia.
Qed.

Lemma Zsum_fmap_le {A} (h h' : A → Z) (l : list A) :
  (∀ x, x ∈ l → h x ≤ h' x) → Zsum (h <$> l) ≤ Zsum (h' <$> l).
Proof.
  unfold Zsum. induction l as [|x l IH]; intros H; csimpl; [done|].
  assert (h x ≤ h' x) by (apply H; set_solver).
  assert (foldr Z.add 0 (h <$> l) ≤ foldr Z.add 0 (h' <$> l))
    by (apply IH; set_solver). lia.
Qed.

Lemma Zsum_fmap_ext {A} (h h' : A → Z) (l : list A) :
  (∀ x, x ∈ l → h x = h' x) → Zsum (h <$> l) = Zsum (h' <$> l).
Proof.
  intros H. apply Z.le_antisymm; apply Zsum_fmap_le; intros x Hx;
    rewrite (H x Hx); lia.
Qed.

Lemma set_fold_sum (h : str → Z) (X : gset str) :
  set_fold (λ g acc, acc + h g) 0 X = sum_over h X.
Proof.
  unfold set_fold, sum_over, Zsum. simpl.
  induction (elements X) as [|x l IH]; csimpl; [done|]. rewrite IH. lia.
Qed.

Lemma sum_over_ext (h h' : str → Z) (X : gset str) :
  (∀ g, g ∈ X → h g = h' g) → sum_over h X = sum_over h' X.
Proof. intros H. apply Zsum_fmap_ext. intros g Hg. apply H. set_solver. Qed.

Lemma sum_over_le (h h' : str → Z) (X : gset str) :
  (∀ g, g ∈ X → h g ≤ h' g) → sum_over h X ≤ sum_over h' X.
Proof. intros H. apply Zsum_fmap_le. intros g Hg. apply H. set_solver. Qed.

Lemma sum_over_split (h : str → Z) (X Y : gset str) :
  X ⊆ Y → sum_over h Y = sum_over h X + sum_over h (Y ∖ X).
Proof.
  intros HXY. unfold sum_over. rewrite <- Zsum_app, <- fmap_app.
  apply Zsum_perm, fmap_Permutation.
  rewrite <- elements_disj_union by set_solver.
  assert (Y = X ∪ Y ∖ X) as <-; [|done].
  apply set_eq. intros g. destruct (decide (g ∈ X)); set_solver.
Qed.

(** Terms that are zero outside [X] can be left out of a sum. *)
Lemma sum_over_zero_outside (h : str → Z) (X Y : gset str) :
  X ⊆ Y → (∀ g, g ∈ Y → g ∉ X → h g = 0) → sum_over h X = sum_over h Y.
Proof.
  intros HXY H0. rewrite (sum_over_split h X Y HXY).
  assert (sum_over h (Y ∖ X) = 0) as ->; [|lia].
  apply Zsum_zero. intros x (g & -> & Hg)%list_elem_of_fmap.
  apply H0; set_solver.
Qed.

Lemma sum_over_mono (h : str → Z) (X Y : gset str) :
  X ⊆ Y → (∀ g, g ∈ Y → 0 ≤ h g) → sum_over h X ≤ sum_over h Y.
Proof.
  intros HXY H0. rewrite (sum_over_split h X Y HXY).
  assert (0 ≤ sum_over h (Y ∖ X)); [|lia].
  apply Zsum_nonneg. intros x (g & -> & Hg)%list_elem_of_fmap.
  apply H0; set_solver.
Qed.

Lemma msum_empty (phi : Z → Z) : msum phi ∅ = 0.
Proof. unfold msum. by rewrite map_fold_empty. Qed.

Lemma msum_insert_None (phi : Z → Z) (f : gmap str Z) (g : str) (v : Z) :
  f !! g = None → msum phi (<[g := v]> f) = msum phi f + phi v.
Proof.
  intros Hg. unfold msum. rewrite map_fold_insert_L; [done| |done].
  intros. lia.
Qed.

Lemma msum_insert_Some (phi : Z → Z) (f : gmap str Z) (g : str) (v w : Z) :
  f !! g = Some w → msum phi (<[g := v]> f) = msum phi f - phi w + phi v.
Proof.
  intros Hg. rewrite <- (insert_delete_id f g w) at 2 by done.
  rewrite <- (insert_delete_eq f), !msum_insert_None
    by apply lookup_delete_eq. lia.
Qed.

Lemma msum_nonneg (phi : Z → Z) (f : gmap str Z) :
  map_Forall (λ _ v, 0 ≤ phi v) f → 0 ≤ msum phi f.
Proof.
  induction f as [|g v f Hg IH] using map_ind; intros Hphi.
  - by rewrite msum_empty.
  - rewrite msum_insert_None by done.
    apply map_Forall_insert in Hphi as [? ?]; [|done].
    specialize (IH ltac:(done)). lia.
Qed.

Lemma msum_lookup_le (phi : Z → Z) (f : gmap str Z) (g : str) (w : Z) :
  map_Forall (λ _ v, 0 ≤ phi v) f → f !! g = Some w → phi w ≤ msum phi f.
Proof.
  intros Hphi Hg. rewrite <- (insert_delete_id f g w) by done.
  rewrite msum_insert_None by apply lookup_delete_eq.
  assert (0 ≤ msum phi (delete g f)); [|lia].
  apply msum_nonneg. intros k v Hk. apply (Hphi k v).
  by apply lookup_delete_Some in Hk as [_ ?].
Qed.

Lemma msum_dom (phi : Z → Z) (f : gmap str Z) :
  msum phi f = sum_over (λ g, phi (count_of f g)) (dom f).
Proof.
  induction f as [|g v f Hg IH] using map_ind.
  - rewrite msum_empty, dom_empty_L. unfold sum_over.
    by rewrite elements_empty.
  - rewrite msum_insert_None, dom_insert_L by done. unfold sum_over.
    erewrite Zsum_perm;
      [|by apply fmap_Permutation, elements_union_singleton, not_elem_of_dom].
    rewrite fmap_cons. unfold Zsum at 1. simpl. fold (Zsum).
    unfold count_of at 1. rewrite lookup_insert_eq. simpl.
    rewrite IH. unfold sum_over.
    rewrite (Zsum_fmap_ext (λ g0, phi (count_of (<[g:=v]> f) g0))
               (λ g0, phi (count_of f g0))); [lia|].
    intros g' Hg'%elem_of_elements%elem_of_dom. unfold count_of.
    rewrite lookup_insert_ne; [done|]. intros ->. rewrite Hg in Hg'.
    by destruct Hg'.
Qed.

Lemma sum_squares_msum f : sum_squares f = msum (λ v, v ^ 2) f.
Proof. done. Qed.

Lemma sum_squares_nonneg f : 0 ≤ sum_squares f.
Proof. rewrite sum_squares_msum. apply msum_nonneg. intros k v _. simpl. nia. Qed.

(** ** The counter built by the increments *)

Lemma incr_msum (phi : Z → Z) (f : gmap str Z) (g : str) :
  msum phi (incr f g)
  = msum phi f + phi (count_of f g + 1)
    - (if f !! g is Some w then phi w else 0).
Proof.
  unfold incr, count_of. destruct (f !! g) as [w|] eqn:Hg; simpl.
  - rewrite (msum_insert_Some _ _ _ _ w) by done. lia.
  - rewrite msum_insert_None by done. lia.
Qed.

Lemma incr_positive f g : positive_counts f → positive_counts (incr f g).
Proof.
  intros Hf. unfold incr. apply map_Forall_insert_2; [|done].
  unfold count_of. destruct (f !! g) as [w|] eqn:Hg; simpl; [|lia].
  specialize (Hf g w Hg). simpl in Hf. lia.
Qed.

(** After [k] increments the counts are positive, add up to [k], and their
    squares add up to at most [k^2]. *)
Lemma foldl_incr_sums (l : list str) :
  let f := foldl incr ∅ l in
  positive_counts f
  ∧ msum (λ v, v) f = Z.of_nat (length l)
  ∧ sum_squares f ≤ Z.of_nat (length l) ^ 2.
Proof.
  induction l as [|g l IH] using rev_ind; simpl.
  - split_and!; [apply map_Forall_empty|by rewrite msum_empty|
                 by rewrite sum_squares_msum, msum_empty].
  - rewrite foldl_app. simpl. destruct IH as (Hpos & Hsum & Hsq).
    set (f := foldl incr ∅ l) in *.
    split_and!; [by apply incr_positive|..].
    + rewrite incr_msum, Hsum, length_app. simpl. unfold count_of.
      destruct (f !! g); simpl; lia.
    + rewrite sum_squares_msum, incr_msum, <- sum_squares_msum, length_app.
      simpl. unfold count_of. destruct (f !! g) as [w|] eqn:Hg; simpl.
      * assert (w ≤ Z.of_nat (length l)).
        { rewrite <- Hsum. apply (msum_lookup_le (λ v, v) f g w); [|done].
          intros k v Hk. specialize (Hpos k v Hk). simpl in *. lia. }
        specialize (Hpos g w Hg). simpl in Hpos. nia.
      * nia.
Qed.

Lemma range_length k : length (range k) = Z.to_nat k.
Proof. unfold range. by rewrite length_fmap, length_seq. Qed.

Lemma count_ngrams_sums (text : str) (n : Z) :
  1 ≤ n →
  let f := count_ngrams text n in
  positive_counts f
  ∧ msum (λ v, v) f = Z.max 0 (len text - n + 1)
  ∧ sum_squares f ≤ len text ^ 2.
Proof.
  intros Hn. rewrite count_ngrams_windows. simpl.
  destruct (foldl_incr_sums
              ((λ i, slice text i (i + n)) <$> range (len text - n + 1)))
    as (Hpos & Hsum & Hsq).
  rewrite length_fmap, range_length in Hsum, Hsq. unfold len in *.
  split_and!; [done|lia|nia].
Qed.

Lemma count_ngrams_empty (text : str) (n : Z) :
  1 ≤ n → count_ngrams text n = ∅ ↔ len text < n.
Proof.
  intros Hn. destruct (count_ngrams_sums text n Hn) as (_ & Hsum & _).
  split.
  - intros E. rewrite E, msum_empty in Hsum. lia.
  - intros Hlt. unfold count_ngrams, range.
    by replace (Z.to_nat (len text - n + 1)) with 0%nat by lia.
Qed.

Lemma positive_sum_squares (f : gmap str Z) :
  positive_counts f → f ≠ ∅ → 1 ≤ sum_squares f.
Proof.
  intros Hpos Hne. destruct (map_choose f Hne) as (g & w & Hg).
  pose proof (msum_lookup_le (λ v, v ^ 2) f g w) as Hle.
  rewrite sum_squares_msum. specialize (Hpos g w Hg). simpl in *.
  assert (w ^ 2 ≤ msum (λ v, v ^ 2) f); [|nia].
  apply Hle; [|done]. intros k v _. simpl. nia.
Qed.

(** On a positive [n] the body of [get_ngram_frequency] returns the counter
    of the windows, empty when the text is shorter than [n]. *)
Lemma get_ngram_frequency_body_count (t : str) (n : Z) :
  1 ≤ n → get_ngram_frequency_body (VStr t) (VInt n) = Ok (count_ngrams t n).
Proof.
  intros Hn. unfold get_ngram_frequency_body. simpl.
  destruct (n <? 1) eqn:E1; [lia|].
  destruct (len t <? n) eqn:E2; [|done].
  f_equal. symmetry. apply count_ngrams_empty; lia.
Qed.

(** ** Dot products *)

Lemma dot_over_sum (X : gset str) (f1 f2 : gmap str Z) :
  dot_over X f1 f2 = sum_over (λ g, count_of f1 g * count_of f2 g) X.
Proof. apply set_fold_sum. Qed.

Lemma dot_over_comm (f1 f2 : gmap str Z) :
  dot_over (dom f1 ∩ dom f2) f1 f2 = dot_over (dom f2 ∩ dom f1) f2 f1.
Proof.
  rewrite !dot_over_sum, (comm_L (∩) (dom f2)).
  apply sum_over_ext. intros. lia.
Qed.

Lemma count_of_not_dom (f : gmap str Z) g : g ∉ dom f → count_of f g = 0.
Proof. intros ?%not_elem_of_dom. unfold count_of. by rewrite H. Qed.

(** The n-grams of only one counter contribute nothing: the dot product
    over the common keys is the dot product over all keys. *)
Lemma dot_over_union (f1 f2 : gmap str Z) :
  dot_over (dom f1 ∩ dom f2) f1 f2 = dot_over (dom f1 ∪ dom f2) f1 f2.
Proof.
  rewrite !dot_over_sum. apply sum_over_zero_outside; [set_solver|].
  intros g _ Hg. destruct (decide (g ∈ dom f1)).
  - rewrite (count_of_not_dom f2 g) by set_solver. lia.
  - rewrite (count_of_not_dom f1 g) by done. lia.
Qed.

Lemma positive_count_of (f : gmap str Z) g :
  positive_counts f → 0 ≤ count_of f g.
Proof.
  intros Hf. unfold count_of. destruct (f !! g) as [w|] eqn:E; simpl; [|lia].
  specialize (Hf g w E). simpl in Hf. lia.
Qed.

Lemma dot_over_bounds (f1 f2 : gmap str Z) :
  positive_counts f1 → positive_counts f2 →
  0 ≤ dot_over (dom f1 ∩ dom f2) f1 f2 ≤ sum_squares f1 + sum_squares f2.
Proof.
  intros H1 H2. rewrite dot_over_sum. split.
  - apply Zsum_nonneg. intros x (g & -> & _)%list_elem_of_fmap.
    pose proof (positive_count_of f1 g H1).
    pose proof (positive_count_of f2 g H2). nia.
  - rewrite (sum_squares_msum f1), (sum_squares_msum f2), !msum_dom. cbv beta.
    trans (sum_over (λ g, count_of f1 g ^ 2) (dom f1 ∩ dom f2)
           + sum_over (λ g, count_of f2 g ^ 2) (dom f1 ∩ dom f2)).
    + unfold sum_over, Zsum.
      induction (elements (dom f1 ∩ dom f2)) as [|g l IH]; csimpl; [done|].
      nia.
    + pose proof (sum_over_mono (λ g, count_of f1 g ^ 2)
                    (dom f1 ∩ dom f2) (dom f1)) as M1.
      pose proof (sum_over_mono (λ g, count_of f2 g ^ 2)
                    (dom f1 ∩ dom f2) (dom f2)) as M2.
      assert (∀ f g, 0 ≤ count_of f g ^ 2) as Hsq by (intros; nia).
      specialize (M1 ltac:(set_solver) ltac:(intros; apply Hsq)).
      specialize (M2 ltac:(set_solver) ltac:(intros; apply Hsq)). lia.
Qed.

(** ** The loop of [mainTEST.py] *)

Lemma dd_get_spec (f : gmap str Z) g :
  (MainTest.dd_get f g).1 = count_of f g
  ∧ (∀ g', count_of (MainTest.dd_get f g).2 g' = count_of f g')
  ∧ sum_squares (MainTest.dd_get f g).2 = sum_squares f.
Proof.
  unfold MainTest.dd_get, count_of. destruct (f !! g) as [w|] eqn:E; simpl.
  - done.
  - split_and!; [done| |].
    + intros g'. destruct (decide (g = g')) as [<-|];
        [by rewrite lookup_insert_eq, E|by rewrite lookup_insert_ne].
    + rewrite (sum_squares_msum (<[g:=0]> f)), (sum_squares_msum f),
        msum_insert_None by done. simpl. lia.
Qed.

Lemma dot_loop_spec (X : gset str) (f1 f2 : gmap str Z) :
  let '(dot, f1', f2') := MainTest.dot_loop X f1 f2 in
  dot = dot_over X f1 f2
  ∧ sum_squares f1' = sum_squares f1 ∧ sum_squares f2' = sum_squares f2.
Proof.
  unfold MainTest.dot_loop, dot_over, set_fold. simpl.
  set (step := λ (g : str) '(dot, f1, f2),
                 let '(a, f1') := MainTest.dd_get f1 g in
                 let '(b, f2') := MainTest.dd_get f2 g in
                 (dot + a * b, f1', f2')).
  assert (∀ l, let '(dot, f1', f2') := foldr step (0, f1, f2) l in
               dot = foldr (λ g acc, acc + count_of f1 g * count_of f2 g) 0 l
               ∧ (∀ g, count_of f1' g = count_of f1 g)
               ∧ (∀ g, count_of f2' g = count_of f2 g)
               ∧ sum_squares f1' = sum_squares f1
               ∧ sum_squares f2' = sum_squares f2) as H.
  { induction l as [|g l IH]; simpl; [done|].
    destruct (foldr step (0, f1, f2) l) as [[dot f1'] f2'].
    destruct IH as (-> & Hc1 & Hc2 & Hs1 & Hs2). unfold step.
    destruct (dd_get_spec f1' g) as (Ha & Hca & Hsa).
    destruct (dd_get_spec f2' g) as (Hb & Hcb & Hsb).
    destruct (MainTest.dd_get f1' g) as [a f1''].
    destruct (MainTest.dd_get f2' g) as [b f2'']. simpl in *. subst a b.
    rewrite Hc1, Hc2.
    split_and!; [done|intros g'; by rewrite Hca|intros g'; by rewrite Hcb
                |congruence|congruence]. }
  specialize (H (elements X)).
  destruct (foldr step (0, f1, f2) (elements X)) as [[dot f1'] f2'].
  tauto.
Qed.

Lemma frequencies_get_ngrams `{U : UnicodeData} (text : str) (n : Z) :
  MainTest.frequencies (MainTest.get_ngrams text n) = count_ngrams text n.
Proof. by rewrite count_ngrams_windows. Qed.

(** ** Binary64 rounding *)

Lemma digits2_pos_size p : digits2_pos p = Pos.size p.
Proof. induction p; simpl; by f_equal. Qed.

Lemma Zdigits2_log2 m : 0 < m → Zdigits2 m = Z.log2 m + 1.
Proof.
  destruct m as [|p|p]; [lia| |lia]. intros _. simpl.
  rewrite digits2_pos_size. destruct p; simpl; lia.
Qed.

Lemma Zdigits2_bounds m :
  0 < m → 2 ^ (Zdigits2 m - 1) ≤ m < 2 ^ Zdigits2 m.
Proof.
  intros Hm. rewrite Zdigits2_log2 by done.
  replace (Z.log2 m + 1 - 1) with (Z.log2 m) by lia.
  replace (Z.log2 m + 1) with (Z.succ (Z.log2 m)) by lia.
  by apply Z.log2_spec.
Qed.

Lemma Zdigits2_unique m d :
  0 < d → 2 ^ (d - 1) ≤ m < 2 ^ d → Zdigits2 m = d.
Proof.
  intros Hd Hm. assert (0 < m) by (pose proof (Z.pow_pos_nonneg 2 (d - 1)); lia).
  rewrite Zdigits2_log2 by done.
  rewrite (Z.log2_unique m (d - 1)); [lia|lia|].
  by replace (Z.succ (d - 1)) with d by lia.
Qed.

Lemma Zdigits2_pos m : 0 < m → 0 < Zdigits2 m.
Proof.
  intros Hm. rewrite Zdigits2_log2 by done. pose proof (Z.log2_nonneg m). lia.
Qed.

Lemma iter_pos_nat {A} (f : A → A) p x :
  SpecFloat.iter_pos f p x = Nat.iter (Pos.to_nat p) f x.
Proof.
  revert x. induction p as [p IH|p IH|]; intros x;
    cbn [SpecFloat.iter_pos]; [| |done].
  - rewrite !IH, Pos2Nat.inj_xI, Nat.iter_succ_r.
    replace (2 * Pos.to_nat p)%nat with (Pos.to_nat p + Pos.to_nat p)%nat
      by lia.
    by rewrite Nat.iter_add.
  - rewrite !IH, Pos2Nat.inj_xO.
    replace (2 * Pos.to_nat p)%nat with (Pos.to_nat p + Pos.to_nat p)%nat
      by lia.
    by rewrite Nat.iter_add.
Qed.

Lemma shr_1_m mrs : 0 ≤ shr_m mrs → shr_m (shr_1 mrs) = shr_m mrs / 2.
Proof.
  destruct mrs as [m r s]. cbn [shr_m]. intros Hm.
  destruct m as [|[p|p|]|p]; cbn [shr_1 shr_m]; [done| | |done|lia].
  - apply (Z.div_unique _ 2 _ 1); lia.
  - apply (Z.div_unique _ 2 _ 0); lia.
Qed.

Lemma iter_shr_1_m n mrs :
  0 ≤ shr_m mrs →
  shr_m (Nat.iter n shr_1 mrs) = shr_m mrs / 2 ^ Z.of_nat n.
Proof.
  intros Hm. induction n as [|n IH]; [by rewrite Z.div_1_r|].
  simpl Nat.iter. rewrite shr_1_m, IH.
  - rewrite Nat2Z.inj_succ, Z.pow_succ_r, Z.div_div by lia. f_equal. lia.
  - rewrite IH. apply Z.div_pos; lia.
Qed.

Lemma shr_record_of_loc_m m l : shr_m (shr_record_of_loc m l) = m.
Proof. by destruct l as [|[]]. Qed.

Lemma loc_of_shr_record_of_loc m l :
  loc_of_shr_record (shr_record_of_loc m l) = l.
Proof. by destruct l as [|[]]. Qed.

(** Shifting a mantissa of at least 53 digits, in the normal range, leaves
    exactly its 53 leading digits. *)
Lemma shr_fexp_normal m e l :
  0 < m → 53 ≤ Zdigits2 m → -1074 ≤ Zdigits2 m + e - 53 →
  let k := Zdigits2 m - 53 in
  ∃ mrs, shr_fexp prec emax m e l = (mrs, e + k)
    ∧ shr_m mrs = m / 2 ^ k
    ∧ (k = 0 → loc_of_shr_record mrs = l).
Proof.
  intros Hm Hd He k. unfold shr_fexp, shr, fexp, SpecFloat.emin, prec, emax.
  replace (Z.max (Zdigits2 m + e - 53) (3 - 1024 - 53) - e) with k by lia.
  destruct k as [|p|p] eqn:Hk; [| |lia].
  - eexists. split_and!; [by rewrite Z.add_0_r|..].
    + by rewrite shr_record_of_loc_m, Z.div_1_r.
    + intros _. apply loc_of_shr_record_of_loc.
  - eexists. split_and!; [done| |done].
    rewrite iter_pos_nat, iter_shr_1_m, shr_record_of_loc_m.
    + by rewrite positive_nat_Z.
    + rewrite shr_record_of_loc_m. lia.
Qed.

Lemma round_nearest_even_cases M l :
  round_nearest_even M l = M ∨ round_nearest_even M l = M + 1.
Proof.
  destruct l as [|[]]; simpl; auto. destruct (Z.even M); auto.
Qed.

Lemma leading_digits m :
  0 < m → 53 ≤ Zdigits2 m →
  2 ^ 52 ≤ m / 2 ^ (Zdigits2 m - 53) < 2 ^ 53.
Proof.
  intros Hm Hd. pose proof (Zdigits2_bounds m Hm) as [Hlo Hhi].
  set (k := Zdigits2 m - 53) in *.
  replace (Zdigits2 m - 1) with (52 + k) in Hlo by lia.
  replace (Zdigits2 m) with (53 + k) in Hhi by lia.
  rewrite Z.pow_add_r in Hlo, Hhi by lia.
  assert (0 < 2 ^ k) by (apply Z.pow_pos_nonneg; lia). split.
  - apply Z.div_le_lower_bound; lia.
  - apply Z.div_lt_upper_bound; lia.
Qed.

(** The rounding step of every operation, on a mantissa of at least 53
    digits whose value lies in the normal range: the result is a finite
    normal number whose mantissa is the 53 leading digits of [mx], or one
    more. *)
Lemma binary_round_aux_normal sx mx ex lx :
  0 < mx → 53 ≤ Zdigits2 mx →
  let k := Zdigits2 mx - 53 in
  let M := mx / 2 ^ k in
  -1074 ≤ ex + k → ex + k + 1 ≤ 971 →
  ∃ m' e',
    binary_round_aux prec emax sx mx ex lx = S754_finite sx m' e'
    ∧ 2 ^ 52 ≤ Z.pos m' < 2 ^ 53
    ∧ ((e' = ex + k ∧ (Z.pos m' = M ∨ Z.pos m' = M + 1))
       ∨ (e' = ex + k + 1 ∧ Z.pos m' = 2 ^ 52 ∧ M + 1 = 2 ^ 53))
    ∧ (k = 0 → lx = loc_Exact → Z.pos m' = mx ∧ e' = ex).
Proof.
  intros Hm Hd k M Hlo Hhi. unfold binary_round_aux.
  destruct (shr_fexp_normal mx ex lx Hm Hd ltac:(lia))
    as (mrs1 & E1 & Hm1 & Hl1). rewrite E1. cbv beta iota zeta.
  fold k in Hm1, Hl1 |- *. fold M in Hm1.
  pose proof (leading_digits mx Hm Hd) as HM. fold k in HM. fold M in HM.
  set (mr := round_nearest_even (shr_m mrs1) (loc_of_shr_record mrs1)).
  assert (mr = M ∨ mr = M + 1) as Hmr
    by (unfold mr; rewrite Hm1; apply round_nearest_even_cases).
  assert (0 < mr) by lia.
  destruct (decide (mr < 2 ^ 53)) as [Hlt|Hge].
  - assert (Zdigits2 mr = 53) as Hd2 by (apply Zdigits2_unique; lia).
    destruct (shr_fexp_normal mr (ex + k) loc_Exact ltac:(done) ltac:(lia)
                ltac:(lia)) as (mrs2 & E2 & Hm2 & _).
    rewrite E2. cbv beta iota zeta.
    rewrite Hd2 in Hm2. simpl in Hm2. rewrite Z.div_1_r in Hm2. rewrite Hm2.
    destruct mr as [|p|p] eqn:Ep; [lia| |lia].
    rewrite Hd2. replace (ex + k + (53 - 53)) with (ex + k) by lia.
    unfold prec, emax. destruct (ex + k <=? 1024 - 53) eqn:E; [|lia].
    exists p, (ex + k). split_and!; [done|lia|lia|left; lia|].
    intros Hk ->. specialize (Hl1 Hk). unfold mr in Ep.
    rewrite Hl1, Hm1 in Ep. simpl in Ep. unfold M in Ep.
    rewrite Hk, Z.div_1_r in Ep. lia.
  - assert (mr = 2 ^ 53) as Emr by lia.
    assert (Zdigits2 mr = 54) as Hd2 by (apply Zdigits2_unique; lia).
    destruct (shr_fexp_normal mr (ex + k) loc_Exact ltac:(done) ltac:(lia)
                ltac:(lia)) as (mrs2 & E2 & Hm2 & _).
    rewrite E2. cbv beta iota zeta.
    rewrite Hd2, Emr in Hm2. change (2 ^ 53 / 2 ^ (54 - 53)) with (2 ^ 52) in Hm2.
    rewrite Hm2, Hd2. change (2 ^ 52) with (Z.pos 4503599627370496).
    cbv iota. unfold prec, emax.
    destruct (ex + k + (54 - 53) <=? 1024 - 53) eqn:E; [|lia].
    eexists _, _. split_and!; [done|lia|lia|right; lia|].
    intros Hk ->. specialize (Hl1 Hk). unfold mr in Emr.
    rewrite Hl1, Hm1 in Emr. simpl in Emr. lia.
Qed.

(** ** Binary64 rounding, in the reals *)

(** Half an ulp of 1, doubled: the relative error bound of one rounding. *)
Local Notation eps := (/ 4503599627370496)%R.

Lemma powerRZ_2_pos e : (0 < powerRZ 2 e)%R.
Proof. apply powerRZ_lt. lra. Qed.

Lemma powerRZ_2_add a b : powerRZ 2 (a + b) = (powerRZ 2 a * powerRZ 2 b)%R.
Proof. apply powerRZ_add. lra. Qed.

Lemma IZR_pow2 k : 0 ≤ k → IZR (2 ^ k) = powerRZ 2 k.
Proof.
  intros Hk. destruct k as [|p|p]; [done| |lia].
  rewrite <- (positive_nat_Z p) at 1. rewrite <- pow_IZR. done.
Qed.

(** [binary_round_aux_normal] in the reals: the result is within a relative
    error [2^-52] of the truncated value [mx * 2^ex]. *)
Lemma binary_round_aux_R sx mx ex lx :
  0 < mx → 53 ≤ Zdigits2 mx →
  let k := Zdigits2 mx - 53 in
  -1074 ≤ ex + k → ex + k + 1 ≤ 971 →
  ∃ m' e',
    binary_round_aux prec emax sx mx ex lx = S754_finite sx m' e'
    ∧ 2 ^ 52 ≤ Z.pos m' < 2 ^ 53
    ∧ ex + k ≤ e' ≤ ex + k + 1
    ∧ (IZR mx * powerRZ 2 ex * (1 - eps) <= IZR (Z.pos m') * powerRZ 2 e'
       <= IZR mx * powerRZ 2 ex * (1 + eps))%R.
Proof.
  intros Hm Hd k Hlo Hhi.
  destruct (binary_round_aux_normal sx mx ex lx Hm Hd Hlo Hhi)
    as (m' & e' & E & Hm' & Hcases & _).
  exists m', e'. split; [done|]. split; [lia|]. split; [lia|].
  pose proof (leading_digits mx Hm Hd) as HM. fold k in HM, Hcases.
  set (M := mx / 2 ^ k) in *.
  assert (0 ≤ k) as Hk by lia.
  assert (0 < 2 ^ k) as Hpk by (apply Z.pow_pos_nonneg; lia).
  assert (M * 2 ^ k ≤ mx < (M + 1) * 2 ^ k) as [HZ1 HZ2].
  { unfold M. pose proof (Z.mul_div_le mx (2 ^ k) Hpk).
    pose proof (Z.mul_succ_div_gt mx (2 ^ k) Hpk). lia. }
  apply IZR_le in HZ1. apply IZR_lt in HZ2.
  rewrite mult_IZR, IZR_pow2 in HZ1, HZ2 by done. rewrite plus_IZR in HZ2.
  assert (4503599627370496 <= IZR M)%R as HMR by (apply IZR_le; lia).
  pose proof (powerRZ_2_pos ex) as Hpe. pose proof (powerRZ_2_pos k) as Hpkr.
  set (a := IZR M) in *. set (X := (IZR mx * powerRZ 2 ex)%R).
  set (P := (powerRZ 2 k * powerRZ 2 ex)%R).
  assert (0 < P)%R as HP by (unfold P; nra).
  assert (a * P <= X < (a + 1) * P)%R as [HX1 HX2] by (unfold X, P; nra).
  assert (P <= eps * (a * P))%R as HuP.
  { assert (1 <= eps * a)%R by lra. nra. }
  assert (IZR (Z.pos m') * powerRZ 2 e' = a * P
          ∨ IZR (Z.pos m') * powerRZ 2 e' = (a + 1) * P)%R as [-> | ->].
  { destruct Hcases as [[-> [-> | ->]] | (-> & -> & HM1)].
    - left. rewrite powerRZ_2_add. unfold P, a. lra.
    - right. rewrite powerRZ_2_add, plus_IZR. unfold P, a. lra.
    - right. rewrite !powerRZ_2_add. apply (f_equal IZR) in HM1.
      rewrite plus_IZR in HM1. fold a in HM1. unfold P. simpl powerRZ.
      change (IZR (2 ^ 53)) with 9007199254740992%R in HM1.
      change (IZR (2 ^ 52)) with 4503599627370496%R. nra. }
  - split; nra.
  - split; nra.
Qed.

Lemma Pos_iter_xO mx d : Z.pos (Pos.iter xO mx d) = Z.pos mx * 2 ^ Z.pos d.
Proof.
  induction d as [|d IH] using Pos.peano_ind; [simpl; lia|].
  rewrite Pos.iter_succ, Pos2Z.inj_xO, IH, Pos2Z.inj_succ, Z.pow_succ_r; lia.
Qed.

Lemma Zdigits2_range m lo hi :
  0 ≤ lo → 2 ^ lo ≤ m < 2 ^ hi → lo < Zdigits2 m ≤ hi.
Proof.
  intros Hlo [H1 H2].
  assert (0 < m) by (pose proof (Z.pow_pos_nonneg 2 lo); lia).
  pose proof (Zdigits2_bounds m ltac:(done)) as [H3 H4].
  pose proof (Zdigits2_pos m ltac:(done)).
  split.
  - apply (Z.pow_lt_mono_r_iff 2); [lia|lia|lia].
  - assert (Zdigits2 m - 1 < hi); [|lia].
    apply (Z.pow_lt_mono_r_iff 2); [lia| |lia].
    destruct (decide (0 ≤ hi)); [done|]. rewrite Z.pow_neg_r in H2; lia.
Qed.

(** [float(z)] of an integer [1 <= z < 2^1023] is a normal number within a
    relative error [2^-52] of [z]. *)
Lemma float_of_int_normal z :
  1 ≤ z < 2 ^ 1023 →
  ∃ m e,
    float_of_int z = Ok (S754_finite false m e)
    ∧ 2 ^ 52 ≤ Z.pos m < 2 ^ 53
    ∧ -52 ≤ e ≤ Zdigits2 z - 52
    ∧ (IZR z * (1 - eps) <= IZR (Z.pos m) * powerRZ 2 e <= IZR z * (1 + eps))%R.
Proof.
  intros [Hz1 Hz2]. destruct z as [|p|p]; [lia| |lia].
  pose proof (Zdigits2_bounds (Z.pos p) ltac:(lia)) as [Hd1 Hd2].
  pose proof (Zdigits2_pos (Z.pos p) ltac:(lia)) as Hd0.
  assert (Zdigits2 (Z.pos p) ≤ 1023) as Hd3
    by (apply (Zdigits2_range _ 0 1023); simpl; lia).
  unfold float_of_int, binary_normalize, binary_round, shl_align.
  change (Z.pos (digits2_pos p)) with (Zdigits2 (Z.pos p)).
  set (d := Zdigits2 (Z.pos p)) in *.
  assert (fexp prec emax (d + 0) = d - 53) as ->
    by (unfold fexp, SpecFloat.emin, prec, emax; lia).
  replace (d - 53 - 0) with (d - 53) by lia.
  destruct (d - 53) as [|k|k] eqn:Ek.
  - destruct (binary_round_aux_R false (Z.pos p) 0 loc_Exact)
      as (m & e & E & Hm & He & HR); [lia|lia|lia|lia|].
    fold d in He. rewrite E. exists m, e. split_and!; try done; try lia.
    all: simpl powerRZ in HR; lra.
  - destruct (binary_round_aux_R false (Z.pos p) 0 loc_Exact)
      as (m & e & E & Hm & He & HR); [lia|lia|lia|lia|].
    fold d in He. rewrite E. exists m, e. split_and!; try done; try lia.
    all: simpl powerRZ in HR; lra.
  - assert (Z.pos (Pos.iter xO p k) = Z.pos p * 2 ^ (53 - d)) as Emz.
    { rewrite Pos_iter_xO. f_equal. f_equal. lia. }
    assert (Zdigits2 (Z.pos (Pos.iter xO p k)) = 53) as Hdz.
    { apply Zdigits2_unique; [lia|]. rewrite Emz.
      assert (2 ^ (53 - 1) = 2 ^ (d - 1) * 2 ^ (53 - d)) as ->
        by (rewrite <- Z.pow_add_r by lia; f_equal; lia).
      assert (2 ^ 53 = 2 ^ d * 2 ^ (53 - d)) as ->
        by (rewrite <- Z.pow_add_r by lia; f_equal; lia).
      assert (0 < 2 ^ (53 - d)) by (apply Z.pow_pos_nonneg; lia). nia. }
    destruct (binary_round_aux_R false (Z.pos (Pos.iter xO p k)) (Z.neg k)
                loc_Exact) as (m & e & E & Hm & He & HR);
      [lia|lia|lia|lia|].
    rewrite Hdz in He. rewrite E. exists m, e.
    split_and!; try done; try lia.
    all: rewrite <- Ek, Emz, mult_IZR, IZR_pow2 in HR by lia.
    all: assert (powerRZ 2 (53 - d) * powerRZ 2 (d - 53) = 1)%R as Hone
        by (rewrite <- powerRZ_2_add; by replace (53 - d + (d - 53)) with 0 by lia).
    all: nra.
Qed.

Lemma binary_round_aux_sign sx mx ex lx :
  match binary_round_aux prec emax sx mx ex lx with
  | S754_zero s | S754_infinity s | S754_finite s _ _ => s = sx
  | S754_nan => True
  end.
Proof.
  unfold binary_round_aux. destruct (shr_fexp _ _ _ _ _) as [mrs1 e1].
  destruct (shr_fexp _ _ _ _ _) as [mrs2 e2].
  destruct (shr_m mrs2); [done| |done]. by destruct (_ <=? _).
Qed.

Lemma float_of_int_Ok_not_negative z f :
  0 ≤ z → float_of_int z = Ok f → f_lt f f_zero = false.
Proof.
  unfold float_of_int, binary_normalize, binary_round. intros Hz.
  destruct z as [|p|p]; [by intros [= <-]| |lia].
  destruct (shl_align _ _ _) as [mz ez].
  pose proof (binary_round_aux_sign false (Z.pos mz) ez loc_Exact) as Hs.
  destruct (binary_round_aux _ _ _ _ _ _) as [s|s| |s m e];
    intros [= <-]; subst; done.
Qed.

Lemma float_of_int_Raise z e : float_of_int z = Raise e → e = OverflowError.
Proof.
  unfold float_of_int.
  destruct (binary_normalize _ _ _ _ _); by intros [= <-].
Qed.

Lemma Zdigits2_normal m : 2 ^ 52 ≤ m < 2 ^ 53 → Zdigits2 m = 53.
Proof. intros. apply Zdigits2_unique; [lia|done]. Qed.

Lemma halve ex : ∃ h r, ex = 2 * h + r ∧ 0 ≤ r < 2 ∧ ex / 2 = h.
Proof.
  exists (ex / 2), (ex mod 2).
  pose proof (Z_div_mod_eq_full ex 2). pose proof (Z.mod_pos_bound ex 2). lia.
Qed.

(** The square root of a positive normal number is a normal number whose
    square is at most [(1 + 2^-52)^2] times the operand. *)
Lemma f_sqrt_normal mx ex :
  2 ^ 52 ≤ Z.pos mx < 2 ^ 53 → -1000 ≤ ex ≤ 1000 →
  ∃ m e,
    f_sqrt (S754_finite false mx ex) = S754_finite false m e
    ∧ 2 ^ 52 ≤ Z.pos m < 2 ^ 53
    ∧ ex / 2 - 26 ≤ e ≤ ex / 2 - 25
    ∧ ((IZR (Z.pos m) * powerRZ 2 e) * (IZR (Z.pos m) * powerRZ 2 e)
       <= (1 + eps) * (1 + eps) * (IZR (Z.pos mx) * powerRZ 2 ex))%R.
Proof.
  intros Hmx Hex. unfold f_sqrt, SFsqrt, SFsqrt_core_binary.
  rewrite (Zdigits2_normal _ Hmx). cbv zeta. rewrite !Z.div2_div.
  destruct (halve ex) as (h & r & Eex & Hr & Eh). rewrite Eh.
  assert ((53 + ex + 1) / 2 = h + 27) as ->.
  { replace (53 + ex + 1) with (r + (h + 27) * 2) by lia.
    rewrite Z.div_add, Z.div_small by lia. lia. }
  assert (fexp prec emax (h + 27) = h - 26) as ->
    by (unfold fexp, SpecFloat.emin, prec, emax; lia).
  replace (Z.min (h - 26) h) with (h - 26) by lia.
  set (s := ex - 2 * (h - 26)). assert (s = r + 52) as Es by (unfold s; lia).
  assert (match s with
          | 0 => Z.pos mx
          | Z.pos _ => Z.shiftl (Z.pos mx) s
          | Z.neg _ => 0
          end = Z.pos mx * 2 ^ s) as ->.
  { destruct s eqn:E; [lia| |lia]. rewrite Z.shiftl_mul_pow2; lia. }
  assert (2 ^ 104 ≤ Z.pos mx * 2 ^ s < 2 ^ 106) as Hm'.
  { assert (s = 52 ∨ s = 53) as [-> | ->] by lia; lia. }
  pose proof (Z.sqrtrem_spec (Z.pos mx * 2 ^ s) ltac:(lia)) as Hspec.
  destruct (Z.sqrtrem (Z.pos mx * 2 ^ s)) as [q rr]. destruct Hspec as [Eq Hrr].
  assert (2 ^ 52 ≤ q < 2 ^ 53) as Hq by (split; nia).
  set (l := if rr =? 0 then loc_Exact
            else loc_Inexact (if rr <=? q then Lt else Gt)).
  destruct (binary_round_aux_R false q (h - 26) l) as (m & e & E & Hm & He & HR);
    [lia|rewrite Zdigits2_normal by done; lia..|].
  rewrite (Zdigits2_normal _ Hq) in He.
  exists m, e. split; [done|]. split; [done|]. split; [lia|].
  set (V := (IZR (Z.pos m) * powerRZ 2 e)%R) in *.
  set (Q := (IZR q * powerRZ 2 (h - 26))%R) in *.
  assert (Q * Q <= IZR (Z.pos mx) * powerRZ 2 ex)%R as HQ.
  { assert (IZR q * IZR q <= IZR (Z.pos mx) * powerRZ 2 s)%R as Hqq.
    { rewrite <- mult_IZR, <- IZR_pow2, <- mult_IZR by lia.
      apply IZR_le. nia. }
    assert (powerRZ 2 ex
            = powerRZ 2 s * (powerRZ 2 (h - 26) * powerRZ 2 (h - 26)))%R as ->.
    { rewrite <- !powerRZ_2_add. f_equal. unfold s. lia. }
    pose proof (powerRZ_2_pos (h - 26)). pose proof (powerRZ_2_pos s).
    unfold Q. nra. }
  assert (0 < Q)%R as HQ0.
  { unfold Q. pose proof (powerRZ_2_pos (h - 26)).
    assert (0 < IZR q)%R by (apply IZR_lt; lia). nra. }
  assert (0 < V)%R by nra.
  assert (V * V <= (Q * (1 + eps)) * (Q * (1 + eps)))%R by nra.
  nra.
Qed.

(** The product of two positive normal numbers, in the normal range, is
    within a relative error [2^-52] of the exact product. *)
Lemma f_mul_normal mx ex my ey :
  2 ^ 52 ≤ Z.pos mx < 2 ^ 53 → 2 ^ 52 ≤ Z.pos my < 2 ^ 53 →
  -1100 ≤ ex + ey ≤ 900 →
  ∃ m e,
    f_mul (S754_finite false mx ex) (S754_finite false my ey)
    = S754_finite false m e
    ∧ 2 ^ 52 ≤ Z.pos m < 2 ^ 53
    ∧ ex + ey + 52 ≤ e ≤ ex + ey + 54
    ∧ (IZR (Z.pos mx) * powerRZ 2 ex * (IZR (Z.pos my) * powerRZ 2 ey) * (1 - eps)
       <= IZR (Z.pos m) * powerRZ 2 e
       <= IZR (Z.pos mx) * powerRZ 2 ex * (IZR (Z.pos my) * powerRZ 2 ey)
          * (1 + eps))%R.
Proof.
  intros Hmx Hmy He. unfold f_mul, SFmul. simpl xorb.
  assert (2 ^ 104 ≤ Z.pos (mx * my) < 2 ^ 106) as Hp
    by (rewrite Pos2Z.inj_mul; split; nia).
  pose proof (Zdigits2_range _ 104 106 ltac:(lia) Hp) as Hd.
  destruct (binary_round_aux_R false (Z.pos (mx * my)) (ex + ey) loc_Exact)
    as (m & e & E & Hm & He' & HR); [lia..|].
  exists m, e. split; [done|]. split; [done|]. split; [lia|].
  rewrite Pos2Z.inj_mul, mult_IZR, powerRZ_2_add in HR.
  split; [eapply Rle_trans; [|apply HR]|eapply Rle_trans; [apply HR|]]; lra.
Qed.

(** The quotient of two positive normal numbers, in the normal range, is at
    least [(1 - 2^-52) / (1 + 2^-52)] times the exact quotient. *)
Lemma f_div_normal mx ex my ey :
  2 ^ 52 ≤ Z.pos mx < 2 ^ 53 → 2 ^ 52 ≤ Z.pos my < 2 ^ 53 →
  -1000 ≤ ex - ey ≤ 1000 →
  ∃ m e,
    f_div (S754_finite false mx ex) (S754_finite false my ey)
    = S754_finite false m e
    ∧ 2 ^ 52 ≤ Z.pos m < 2 ^ 53
    ∧ (IZR (Z.pos mx) * powerRZ 2 ex * (1 - eps)
       <= IZR (Z.pos m) * powerRZ 2 e * (IZR (Z.pos my) * powerRZ 2 ey)
          * (1 + eps))%R.
Proof.
  intros Hmx Hmy He. unfold f_div, SFdiv, SFdiv_core_binary. simpl xorb.
  rewrite (Zdigits2_normal _ Hmx), (Zdigits2_normal _ Hmy). cbv zeta.
  assert (fexp prec emax (53 + ex - (53 + ey)) = ex - ey - 53) as ->
    by (unfold fexp, SpecFloat.emin, prec, emax; lia).
  replace (Z.min (ex - ey - 53) (ex - ey)) with (ex - ey - 53) by lia.
  replace (ex - ey - (ex - ey - 53)) with 53 by lia. cbv iota.
  rewrite Z.shiftl_mul_pow2 by lia.
  pose proof (Z_div_mod (Z.pos mx * 2 ^ 53) (Z.pos my) ltac:(lia)) as Hdiv.
  destruct (Z.div_eucl (Z.pos mx * 2 ^ 53) (Z.pos my)) as [q r].
  destruct Hdiv as [Eq Hr].
  assert (2 ^ 52 ≤ q < 2 ^ 54) as Hq by (split; nia).
  pose proof (Zdigits2_range _ 52 54 ltac:(lia) Hq) as Hd.
  destruct (binary_round_aux_R false q (ex - ey - 53)
              (new_location (Z.pos my) r))
    as (m & e & E & Hm & He' & HR); [lia..|].
  exists m, e. split; [done|]. split; [done|].
  set (V := (IZR (Z.pos m) * powerRZ 2 e)%R) in *.
  set (Q := (IZR q * powerRZ 2 (ex - ey - 53))%R) in *.
  set (Y := (IZR (Z.pos my) * powerRZ 2 ey)%R).
  assert (IZR (Z.pos mx) * powerRZ 2 ex <= Q * Y * (1 + eps))%R as HX.
  { assert (IZR (Z.pos mx) * IZR (2 ^ 53) <= (IZR q + 1) * IZR (Z.pos my))%R
      as Hle.
    { rewrite <- mult_IZR, <- plus_IZR, <- mult_IZR. apply IZR_le. nia. }
    assert (IZR q + 1 <= IZR q * (1 + eps))%R as Hq1.
    { assert (4503599627370496 <= IZR q)%R by (apply IZR_le; lia). lra. }
    assert (powerRZ 2 ex
            = IZR (2 ^ 53) * powerRZ 2 (ex - ey - 53) * powerRZ 2 ey)%R as ->.
    { rewrite IZR_pow2, <- !powerRZ_2_add by lia. f_equal. lia. }
    pose proof (powerRZ_2_pos (ex - ey - 53)). pose proof (powerRZ_2_pos ey).
    assert (0 < IZR (Z.pos my))%R by (apply IZR_lt; lia).
    unfold Q, Y.
    assert (IZR (Z.pos mx) * IZR (2 ^ 53)
            * (powerRZ 2 (ex - ey - 53) * powerRZ 2 ey)
            <= IZR q * (1 + eps) * IZR (Z.pos my)
               * (powerRZ 2 (ex - ey - 53) * powerRZ 2 ey))%R; [|lra].
    apply Rmult_le_compat_r; [nra|]. nra. }
  assert (0 < Y)%R as HY.
  { unfold Y. pose proof (powerRZ_2_pos ey).
    assert (0 < IZR (Z.pos my))%R by (apply IZR_lt; lia). nra. }
  assert (0 < Q)%R as HQ0.
  { unfold Q. pose proof (powerRZ_2_pos (ex - ey - 53)).
    assert (0 < IZR q)%R by (apply IZR_lt; lia). nra. }
  assert (Q * (1 - eps) * Y * (1 + eps) <= V * Y * (1 + eps))%R.
  { apply Rmult_le_compat_r; [lra|]. apply Rmult_le_compat_r; lra. }
  lra.
Qed.

Lemma powerRZ_2_le a b : a ≤ b → (powerRZ 2 a <= powerRZ 2 b)%R.
Proof.
  intros Hab. replace b with (a + (b - a)) by lia.
  rewrite powerRZ_2_add, <- (IZR_pow2 (b - a)) by lia.
  assert (1 <= IZR (2 ^ (b - a)))%R
    by (apply IZR_le; pose proof (Z.pow_pos_nonneg 2 (b - a)); lia).
  pose proof (powerRZ_2_pos a). nra.
Qed.

(** A positive normal number that compares below [1.0] is below 1. *)
Lemma f_lt_one_R m e :
  2 ^ 52 ≤ Z.pos m < 2 ^ 53 → f_lt (S754_finite false m e) f_one = true →
  (IZR (Z.pos m) * powerRZ 2 e < 1)%R.
Proof.
  intros Hm. unfold f_lt, SFltb, f_one, SFcompare.
  destruct (e ?= -52) eqn:Ee; [| |done].
  - destruct (Pos.compare_cont Eq m 4503599627370496) eqn:Ec; try done.
    pose proof (Pos.compare_lt_iff m 4503599627370496) as H.
    unfold Pos.compare in H. apply H in Ec. clear H.
    assert (Z.pos m < Z.pos 4503599627370496) by (by apply Pos2Z.pos_lt_pos).
    change (2 ^ 52) with (Z.pos 4503599627370496) in Hm. lia.
  - intros _. rewrite Z.compare_lt_iff in Ee.
    assert (powerRZ 2 e <= powerRZ 2 (-53))%R as Hp
      by (apply powerRZ_2_le; lia).
    assert (IZR (Z.pos m) < 9007199254740992)%R by (apply IZR_lt; lia).
    pose proof (powerRZ_2_pos e). simpl powerRZ in Hp. nra.
Qed.

(** ** The scorer *)

Section ScorerFacts.
Context {U : UnicodeData}.

(** With coherent caches the scorer returns what it returns without them,
    and leaves the caches coherent. *)
Lemma calculate_cosine_similarity_uncached (A B : str) (n : Z) st :
  coherent st →
  (calculate_cosine_similarity (VStr A) (VStr B) (VInt n) st).1
  = cosine_uncached A B n
  ∧ coherent (calculate_cosine_similarity (VStr A) (VStr B) (VInt n) st).2.
Proof.
  intros Hst. unfold calculate_cosine_similarity, try_except, bind, ret, lift,
    cosine_uncached.
  pose proof (preprocess_text_str A st Hst) as H1.
  pose proof (preprocess_text_coherent (VStr A) st Hst) as Hst1.
  destruct (preprocess_text (VStr A) st) as [r1 st1]. simpl in H1, Hst1.
  subst r1.
  pose proof (preprocess_text_str B st1 Hst1) as H2.
  pose proof (preprocess_text_coherent (VStr B) st1 Hst1) as Hst2.
  destruct (preprocess_text (VStr B) st1) as [r2 st2]. simpl in H2, Hst2.
  subst r2.
  destruct (bool_decide (normalize A = []) || bool_decide (normalize B = []));
    [done|].
  pose proof (get_ngram_frequency_int (normalize A) n st2 Hst2) as H3.
  pose proof (get_ngram_frequency_coherent (VStr (normalize A)) (VInt n) st2
                Hst2) as Hst3.
  destruct (get_ngram_frequency (VStr (normalize A)) (VInt n) st2) as [r3 st3].
  simpl in H3, Hst3. subst r3.
  destruct (get_ngram_frequency_body (VStr (normalize A)) (VInt n))
    as [freq1|e1]; [|done].
  pose proof (get_ngram_frequency_int (normalize B) n st3 Hst3) as H4.
  pose proof (get_ngram_frequency_coherent (VStr (normalize B)) (VInt n) st3
                Hst3) as Hst4.
  destruct (get_ngram_frequency (VStr (normalize B)) (VInt n) st3) as [r4 st4].
  simpl in H4, Hst4. subst r4.
  destruct (get_ngram_frequency_body (VStr (normalize B)) (VInt n))
    as [freq2|e2]; [|done].
  destruct (bool_decide (freq1 = ∅) || bool_decide (freq2 = ∅)); [done|].
  by destruct (cosine_of_counters freq1 freq2).
Qed.

End ScorerFacts.

Lemma f_mul_comm x y : f_mul x y = f_mul y x.
Proof.
  unfold f_mul. destruct x as [sx|sx| |sx mx ex], y as [sy|sy| |sy my ey];
    simpl; try done; try (by rewrite xorb_comm).
  by rewrite xorb_comm, Pos.mul_comm, Z.add_comm.
Qed.

Lemma math_sqrt_zero : math_sqrt 0 = Ok f_zero.
Proof. reflexivity. Qed.

(** On a sum of squares [math.sqrt] returns or raises [OverflowError]. *)
Lemma math_sqrt_nonneg z :
  0 ≤ z →
  math_sqrt z = Raise OverflowError
  ∨ ∃ f, float_of_int z = Ok f ∧ math_sqrt z = Ok (f_sqrt f).
Proof.
  intros Hz. unfold math_sqrt. destruct (float_of_int z) as [f|e] eqn:E.
  - right. rewrite (float_of_int_Ok_not_negative z f Hz E). eauto.
  - left. by rewrite (float_of_int_Raise z e E).
Qed.

Lemma int_truediv_cases z d :
  int_truediv z d = Raise OverflowError
  ∨ int_truediv z d = Raise ZeroDivisionError ∧ f_eq d f_zero = true
  ∨ ∃ f, float_of_int z = Ok f ∧ int_truediv z d = Ok (f_div f d).
Proof.
  unfold int_truediv. destruct (float_of_int z) as [f|e] eqn:E.
  - destruct (f_eq d f_zero); eauto.
  - left. by rewrite (float_of_int_Raise z e E).
Qed.

(** Swapping the counters does not change what the scorer computes from
    them. *)
Lemma cosine_of_counters_comm (f1 f2 : gmap str Z) :
  cosine_of_counters f1 f2 = cosine_of_counters f2 f1.
Proof.
  unfold cosine_of_counters. rewrite (dot_over_comm f2 f1).
  destruct (math_sqrt_nonneg (sum_squares f1) (sum_squares_nonneg f1))
    as [-> | (x1 & _ & ->)];
    destruct (math_sqrt_nonneg (sum_squares f2) (sum_squares_nonneg f2))
    as [-> | (x2 & _ & ->)]; try done.
  by rewrite (f_mul_comm (f_sqrt x2)).
Qed.

Lemma get_ngram_frequency_body_Raise (t t' : str) (n : Z) e :
  get_ngram_frequency_body (VStr t) (VInt n) = Raise e →
  get_ngram_frequency_body (VStr t') (VInt n) = Raise e.
Proof.
  unfold get_ngram_frequency_body. simpl.
  destruct (n <? 1); [done|]. by destruct (len t <? n).
Qed.

Lemma cosine_uncached_comm `{U : UnicodeData} (A B : str) (n : Z) :
  cosine_uncached A B n = cosine_uncached B A n.
Proof.
  unfold cosine_uncached.
  rewrite (orb_comm (bool_decide (normalize B = []))).
  destruct (bool_decide (normalize A = []) || bool_decide (normalize B = []));
    [done|].
  destruct (get_ngram_frequency_body (VStr (normalize A)) (VInt n))
    as [f1|e1] eqn:E1.
  - destruct (get_ngram_frequency_body (VStr (normalize B)) (VInt n))
      as [f2|e2] eqn:E2; [|done].
    rewrite (orb_comm (bool_decide (f2 = ∅))).
    by rewrite cosine_of_counters_comm.
  - by rewrite (get_ngram_frequency_body_Raise _ (normalize B) _ _ E1).
Qed.

(** C6: the scorer is symmetric in its two texts, exactly: the dot product
    and the product of the magnitudes do not depend on the order, and an
    exception, if any, is the same.  Whatever the caches hold. *)
Theorem cosine_similarity_symmetric `{U : UnicodeData}
    (st st' : caches) (A B : str) (n : Z) :
  coherent st → coherent st' →
  (calculate_cosine_similarity (VStr A) (VStr B) (VInt n) st).1
  = (calculate_cosine_similarity (VStr B) (VStr A) (VInt n) st').1.
Proof.
  intros Hst Hst'.
  destruct (calculate_cosine_similarity_uncached A B n st Hst) as [-> _].
  destruct (calculate_cosine_similarity_uncached B A n st' Hst') as [-> _].
  apply cosine_uncached_comm.
Qed.

Section SymmetryWitness.
#[local] Existing Instance PyFragment.data.

Lemma cosine_similarity_symmetric_witness :
  (calculate_cosine_similarity (VStr (txt "night owl")) (VStr (txt "light bowl"))
     (VInt 2) no_caches).1
  = (calculate_cosine_similarity (VStr (txt "light bowl")) (VStr (txt "night owl"))
       (VInt 2) no_caches).1.
Proof.
  apply (cosine_similarity_symmetric no_caches no_caches);
    exact coherent_no_caches.
Defined.

End SymmetryWitness.

(** ** Range of the score: C2 *)

Lemma clamp_range s :
  f_le f_zero (clamp s) = true ∧ f_le (clamp s) f_one = true.
Proof.
  unfold clamp, min_1, f_lt, SFltb.
  destruct (SFcompare s f_one) as [[]|] eqn:E1; [split; reflexivity| |
    split; reflexivity..].
  unfold max_0, f_lt, SFltb.
  destruct (SFcompare f_zero s) as [[]|] eqn:E2; [split; reflexivity| |
    split; reflexivity..].
  unfold f_le, SFleb. rewrite E1, E2. split; reflexivity.
Qed.

Lemma clamp_zero : clamp f_zero = f_zero.
Proof. reflexivity. Qed.

(** [float(z)] of a sum of squares or a dot product of strings of
    admissible length: zero, or a normal number close to [z]. *)
Lemma float_of_int_small z :
  0 ≤ z < 2 ^ 1023 →
  ∃ f, float_of_int z = Ok f
    ∧ ((z = 0 ∧ f = f_zero)
       ∨ ∃ m e, f = S754_finite false m e
           ∧ 2 ^ 52 ≤ Z.pos m < 2 ^ 53
           ∧ -52 ≤ e ≤ Zdigits2 z - 52
           ∧ (IZR z * (1 - eps) <= IZR (Z.pos m) * powerRZ 2 e
              <= IZR z * (1 + eps))%R).
Proof.
  intros [Hz1 Hz2]. destruct (decide (z = 0)) as [->|Hne].
  - exists f_zero. split; [reflexivity|]. left. split; reflexivity.
  - destruct (float_of_int_normal z) as (m & e & E & H); [lia|].
    exists (S754_finite false m e). split; [done|]. right. eauto.
Qed.

Lemma square_bound (t : str) :
  len t ≤ PY_SSIZE_T_MAX → len t ^ 2 < 2 ^ 126.
Proof. unfold PY_SSIZE_T_MAX, len. intros H. nia. Qed.

(** The scorer returns from its counters when their sums of squares are
    those of strings of admissible length; the value is 0.0 or was clamped. *)
Lemma cosine_of_counters_returns (f1 f2 : gmap str Z) :
  positive_counts f1 → positive_counts f2 →
  sum_squares f1 < 2 ^ 126 → sum_squares f2 < 2 ^ 126 →
  ∃ v, cosine_of_counters f1 f2 = Ok v ∧ (v = f_zero ∨ ∃ s, v = clamp s).
Proof.
  intros Hp1 Hp2 Hs1 Hs2. unfold cosine_of_counters.
  pose proof (sum_squares_nonneg f1) as Hn1.
  pose proof (sum_squares_nonneg f2) as Hn2.
  destruct (float_of_int_small (sum_squares f1)) as (x1 & E1 & _); [lia|].
  destruct (float_of_int_small (sum_squares f2)) as (x2 & E2 & _); [lia|].
  destruct (math_sqrt_nonneg _ Hn1) as [R1 | (? & ? & ->)];
    [unfold math_sqrt in R1; rewrite E1 in R1;
     destruct (f_lt x1 f_zero); discriminate|].
  destruct (math_sqrt_nonneg _ Hn2) as [R2 | (? & ? & ->)];
    [unfold math_sqrt in R2; rewrite E2 in R2;
     destruct (f_lt x2 f_zero); discriminate|].
  destruct (f_eq _ f_zero) eqn:Ep; [by eauto|].
  pose proof (dot_over_bounds f1 f2 Hp1 Hp2) as Hdot.
  destruct (float_of_int_small (dot_over (dom f1 ∩ dom f2) f1 f2))
    as (d & Ed & _); [lia|].
  destruct (int_truediv_cases (dot_over (dom f1 ∩ dom f2) f1 f2)
              (f_mul (f_sqrt x) (f_sqrt x0)))
    as [R | [[_ R] | (? & ? & ->)]].
  - unfold int_truediv in R. rewrite Ed in R.
    destruct (f_eq _ f_zero); discriminate.
  - rewrite Ep in R. discriminate.
  - eauto.
Qed.


(** ** The optimised scorer against the scorer of [mainTEST.py]: C3 *)

Lemma MainTest_scorer_counters `{U : UnicodeData} (A B : str) (n : Z) :
  MainTest.calculate_cosine_similarity A B n
  = naive_of_counters (count_ngrams (normalize A) n)
      (count_ngrams (normalize B) n).
Proof.
  unfold MainTest.calculate_cosine_similarity, MainTest.preprocess_text,
    naive_of_counters.
  rewrite !frequencies_get_ngrams.
  set (f1 := count_ngrams (normalize A) n).
  set (f2 := count_ngrams (normalize B) n).
  pose proof (dot_loop_spec (dom f1 ∪ dom f2) f1 f2) as H.
  destruct (MainTest.dot_loop (dom f1 ∪ dom f2) f1 f2) as [[dot f1'] f2'].
  destruct H as (-> & -> & ->). reflexivity.
Qed.

(** [math.sqrt] of the sum of squares of a counter of a string of admissible
    length: zero, or a normal number whose square is close to the sum. *)
Lemma math_sqrt_small S :
  0 ≤ S < 2 ^ 126 →
  ∃ x m,
    float_of_int S = Ok x ∧ math_sqrt S = Ok m
    ∧ ((S = 0 ∧ x = f_zero ∧ m = f_zero)
       ∨ (1 ≤ S
          ∧ ∃ mx ex mm em,
              x = S754_finite false mx ex ∧ m = S754_finite false mm em
              ∧ 2 ^ 52 ≤ Z.pos mx < 2 ^ 53 ∧ 2 ^ 52 ≤ Z.pos mm < 2 ^ 53
              ∧ -52 ≤ ex ≤ 75 ∧ -52 ≤ em ≤ 12
              ∧ ((IZR (Z.pos mm) * powerRZ 2 em) * (IZR (Z.pos mm) * powerRZ 2 em)
                 <= (1 + eps) * (1 + eps) * (IZR (Z.pos mx) * powerRZ 2 ex))%R)).
Proof.
  intros [HS1 HS2].
  destruct (float_of_int_small S) as (x & Ex & Hx); [lia|].
  destruct (math_sqrt_nonneg S HS1) as [R | (x' & Ex' & Em)].
  { unfold math_sqrt in R. rewrite Ex in R.
    destruct (f_lt x f_zero); discriminate. }
  rewrite Ex in Ex'. injection Ex' as <-.
  exists x, (f_sqrt x). split; [exact Ex|]. split; [exact Em|].
  destruct Hx as [[-> ->] | (mx & ex & -> & Hmx & Hex & _)].
  - left. split_and!; reflexivity.
  - right. assert (1 ≤ S) as HS3.
    { destruct (decide (S = 0)) as [->|]; [|lia]. discriminate Ex. }
    split; [exact HS3|].
    assert (Zdigits2 S ≤ 126) as Hd
      by (apply (Zdigits2_range S 0 126); simpl; lia).
    destruct (f_sqrt_normal mx ex Hmx) as (mm & em & E & Hmm & Hem & HR);
      [lia|].
    destruct (halve ex) as (h & r & Eex & Hr & Eh). rewrite Eh in Hem.
    exists mx, ex, mm, em. split_and!; try done; lia.
Qed.

Lemma f_mul_zero_l m :
  m = f_zero ∨ (∃ mm em, m = S754_finite false mm em) →
  f_eq (f_mul f_zero m) f_zero = true ∧ f_eq (f_mul m f_zero) f_zero = true.
Proof. intros [->|(mm & em & ->)]; split; reflexivity. Qed.

(** Whenever the scorer of [mainTEST.py] returns [s] from the counters of
    two strings of admissible length, the scorer of [main.py] returns
    [clamp s] from them. *)
Lemma naive_then_clamp (f1 f2 : gmap str Z) :
  positive_counts f1 → positive_counts f2 →
  sum_squares f1 < 2 ^ 126 → sum_squares f2 < 2 ^ 126 →
  ∃ s, naive_of_counters f1 f2 = Ok s
    ∧ cosine_of_counters f1 f2 = Ok (clamp s)
    ∧ (f1 = ∅ ∨ f2 = ∅ → s = f_zero).
Proof.
  intros Hp1 Hp2 Hs1 Hs2. unfold naive_of_counters, cosine_of_counters.
  rewrite <- dot_over_union.
  pose proof (sum_squares_nonneg f1) as Hn1.
  pose proof (sum_squares_nonneg f2) as Hn2.
  destruct (math_sqrt_small (sum_squares f1)) as (x1 & m1 & _ & -> & H1);
    [lia|].
  destruct (math_sqrt_small (sum_squares f2)) as (x2 & m2 & _ & -> & H2);
    [lia|].
  assert (f1 = ∅ ∨ f2 = ∅ → f_eq (f_mul m1 m2) f_zero = true) as Hdeg.
  { assert (∀ m S, (S = 0 ∧ m = f_zero) ∨ (1 ≤ S ∧ ∃ mm em : _,
                m = S754_finite false mm em) →
              m = f_zero ∨ ∃ mm em, m = S754_finite false mm em) as Hfin.
    { intros m S [[_ ->]|[_ H]]; auto. }
    assert (m1 = f_zero ∨ ∃ mm em, m1 = S754_finite false mm em) as Hm1.
    { apply (Hfin m1 (sum_squares f1)).
      destruct H1 as [(? & _ & ?)|(? & _ & _ & mm & em & _ & ? & _)]; eauto. }
    assert (m2 = f_zero ∨ ∃ mm em, m2 = S754_finite false mm em) as Hm2.
    { apply (Hfin m2 (sum_squares f2)).
      destruct H2 as [(? & _ & ?)|(? & _ & _ & mm & em & _ & ? & _)]; eauto. }
    intros [-> | ->].
    - destruct H1 as [(_ & _ & ->)|(Hge & _)];
        [by apply f_mul_zero_l|].
      rewrite sum_squares_msum, msum_empty in Hge. lia.
    - destruct H2 as [(_ & _ & ->)|(Hge & _)];
        [by apply f_mul_zero_l|].
      rewrite sum_squares_msum, msum_empty in Hge. lia. }
  destruct (f_eq (f_mul m1 m2) f_zero) eqn:Ep.
  - exists f_zero. split_and!; reflexivity || auto.
  - pose proof (dot_over_bounds f1 f2 Hp1 Hp2) as Hdot.
    destruct (float_of_int_small (dot_over (dom f1 ∩ dom f2) f1 f2))
      as (d & Ed & _); [lia|].
    destruct (int_truediv_cases (dot_over (dom f1 ∩ dom f2) f1 f2)
                (f_mul m1 m2)) as [R | [[_ R] | (d' & _ & ->)]].
    + unfold int_truediv in R. rewrite Ed in R.
      destruct (f_eq _ f_zero); discriminate.
    + rewrite Ep in R. discriminate.
    + exists (f_div d' (f_mul m1 m2)). split_and!; try reflexivity.
      intros Hd. specialize (Hdeg Hd). discriminate.
Qed.

Section OptimisedAgainstNaive.
#[local] Existing Instance PyFragment.data.

(** C3 as stated fails: on ["abcd"] against itself the three bigram counts
    are 1, [sqrt(3.0) * sqrt(3.0)] is [2.9999999999999996] and
    [3 / 2.9999999999999996] is [1.0000000000000002], which [mainTEST.py]
    returns and [main.py] clamps to [1.0]. *)
Lemma optimized_differs_from_naive :
  (calculate_cosine_similarity (VStr (txt "abcd")) (VStr (txt "abcd")) (VInt 2)
     no_caches).1 = Ok f_one
  ∧ MainTest.calculate_cosine_similarity (txt "abcd") (txt "abcd") 2
    = Ok (S754_finite false 4503599627370497 (-52))
  ∧ (calculate_cosine_similarity (VStr (txt "abcd")) (VStr (txt "abcd"))
       (VInt 2) no_caches).1
    ≠ MainTest.calculate_cosine_similarity (txt "abcd") (txt "abcd") 2.
Proof. vm_compute. split_and!; [reflexivity|reflexivity|discriminate]. Qed.

End OptimisedAgainstNaive.

(** C3 (amended): the dot product over the n-grams common to both counters
    equals the dot product over all n-grams of either, and on two strings
    and a positive [n] the scorer of [main.py] returns the value of the
    scorer of [mainTEST.py] clamped by [max(0.0, min(1.0, .))]. *)
Theorem optimized_scorer_clamps_naive `{U : UnicodeData}
    (st : caches) (A B : str) (n : Z) :
  coherent st → 1 ≤ n →
  len (normalize A) ≤ PY_SSIZE_T_MAX → len (normalize B) ≤ PY_SSIZE_T_MAX →
  let freq1 := count_ngrams (normalize A) n in
  let freq2 := count_ngrams (normalize B) n in
  dot_over (dom freq1 ∩ dom freq2) freq1 freq2
  = dot_over (dom freq1 ∪ dom freq2) freq1 freq2
  ∧ ∃ s,
      MainTest.calculate_cosine_similarity A B n = Ok s
      ∧ (calculate_cosine_similarity (VStr A) (VStr B) (VInt n) st).1
        = Ok (clamp s).
Proof.
  intros Hst Hn HA HB f1 f2. split; [apply dot_over_union|].
  destruct (calculate_cosine_similarity_uncached A B n st Hst) as [-> _].
  rewrite MainTest_scorer_counters. fold f1 f2. unfold cosine_uncached.
  rewrite !get_ngram_frequency_body_count by done. fold f1 f2.
  destruct (count_ngrams_sums (normalize A) n Hn) as (Hp1 & _ & Hs1).
  destruct (count_ngrams_sums (normalize B) n Hn) as (Hp2 & _ & Hs2).
  pose proof (square_bound _ HA). pose proof (square_bound _ HB).
  fold f1 in Hp1, Hs1. fold f2 in Hp2, Hs2.
  destruct (naive_then_clamp f1 f2 Hp1 Hp2) as (s & Es & Ec & Hdeg);
    [lia|lia|].
  exists s. split; [exact Es|].
  assert (f1 = ∅ ∨ f2 = ∅ → Ok f_zero = Ok (clamp s)) as Hz.
  { intros Hd. rewrite (Hdeg Hd). reflexivity. }
  destruct (bool_decide (normalize A = [])) eqn:EA.
  { apply bool_decide_eq_true in EA. apply Hz. left.
    apply count_ngrams_empty; [done|]. rewrite EA. unfold len. simpl. lia. }
  destruct (bool_decide (normalize B = [])) eqn:EB.
  { apply bool_decide_eq_true in EB. apply Hz. right.
    apply count_ngrams_empty; [done|]. rewrite EB. unfold len. simpl. lia. }
  simpl orb.
  destruct (bool_decide (f1 = ∅)) eqn:E1.
  { apply bool_decide_eq_true in E1. apply Hz. by left. }
  destruct (bool_decide (f2 = ∅)) eqn:E2.
  { apply bool_decide_eq_true in E2. apply Hz. by right. }
  simpl orb. rewrite Ec. reflexivity.
Qed.

Section OptimisedWitness.
#[local] Existing Instance PyFragment.data.

Lemma optimized_scorer_clamps_naive_witness :
  let freq1 := count_ngrams (normalize (txt "abcd")) 2 in
  let freq2 := count_ngrams (normalize (txt "bcde")) 2 in
  dot_over (dom freq1 ∩ dom freq2) freq1 freq2
  = dot_over (dom freq1 ∪ dom freq2) freq1 freq2
  ∧ ∃ s,
      MainTest.calculate_cosine_similarity (txt "abcd") (txt "bcde") 2 = Ok s
      ∧ (calculate_cosine_similarity (VStr (txt "abcd")) (VStr (txt "bcde"))
           (VInt 2) no_caches).1 = Ok (clamp s).
Proof.
  apply (optimized_scorer_clamps_naive no_caches).
  - exact coherent_no_caches.
  - lia.
  - vm_compute. discriminate.
  - vm_compute. discriminate.
Defined.

End OptimisedWitness.

(** ** A text against itself: C1 *)

Lemma dot_over_self (f : gmap str Z) :
  dot_over (dom f ∩ dom f) f f = sum_squares f.
Proof.
  rewrite dot_over_sum, (idemp_L (∩) (dom f)), sum_squares_msum, msum_dom.
  apply sum_over_ext. intros g _. cbv beta. lia.
Qed.

Lemma B2R_one : B2R f_one = 1%R.
Proof.
  unfold B2R, f_one. change (Z.pos 4503599627370496) with (2 ^ 52).
  rewrite IZR_pow2 by lia. rewrite Rmult_1_l, <- powerRZ_2_add. reflexivity.
Qed.

(** Four roundings lose less than one part in a hundred. *)
Lemma four_roundings (X Vm Vp Vr : R) :
  (0 < X → 0 < Vm → 0 < Vp → 0 < Vr →
   Vm * Vm <= (1 + eps) * (1 + eps) * X →
   Vp <= Vm * Vm * (1 + eps) →
   X * (1 - eps) <= Vr * Vp * (1 + eps) →
   99 / 100 <= Vr)%R.
Proof.
  intros HX HVm HVp HVr H1 H2 H3.
  assert (0 < eps <= 1 / 1000000)%R as [He0 He1] by lra.
  set (a := (1 + eps)%R) in *.
  assert (1 < a <= 1 + 1 / 1000000)%R as [Ha0 Ha1] by (unfold a; lra).
  assert (Vp <= a * a * a * X)%R as Hp by nra.
  assert (Vr * Vp * a <= Vr * (a * a * a * X) * a)%R as Hq.
  { apply Rmult_le_compat_r; [lra|]. apply Rmult_le_compat_l; lra. }
  assert (X * (1 - eps) <= X * (Vr * (a * a * a * a)))%R as Hr by nra.
  assert (1 - eps <= Vr * (a * a * a * a))%R as Hs.
  { apply (Rmult_le_reg_l X); assumption. }
  assert (a * a <= 1 + 3 / 1000000)%R as Ha2 by nra.
  assert (a * a * a * a <= 1 + 7 / 1000000)%R as Ha4 by nra.
  nra.
Qed.

(** From one counter of a string of admissible length, on both sides, the
    scorer returns a number between 0.99 and 1. *)
Lemma cosine_of_counters_self (f : gmap str Z) :
  positive_counts f → f ≠ ∅ → sum_squares f < 2 ^ 126 →
  ∃ v, cosine_of_counters f f = Ok v ∧ (99 / 100 <= B2R v <= 1)%R.
Proof.
  intros Hp Hne Hs. unfold cosine_of_counters. rewrite dot_over_self.
  pose proof (positive_sum_squares f Hp Hne) as HS1.
  destruct (math_sqrt_small (sum_squares f)) as (x & m & Ex & -> & H); [lia|].
  destruct H as [(? & _)|(_ & mx & ex & mm & em & -> & -> & Hmx & Hmm & Hex
                          & Hem & HRm)]; [lia|].
  destruct (f_mul_normal mm em mm em Hmm Hmm) as (mp & ep & -> & Hmp & Hep & HRp);
    [lia|].
  change (f_eq (S754_finite false mp ep) f_zero) with false. cbv iota.
  unfold int_truediv. rewrite Ex.
  change (f_eq (S754_finite false mp ep) f_zero) with false. cbv iota.
  destruct (f_div_normal mx ex mp ep Hmx Hmp) as (mr & er & -> & Hmr & HRr);
    [lia|].
  set (X := (IZR (Z.pos mx) * powerRZ 2 ex)%R) in *.
  set (Vm := (IZR (Z.pos mm) * powerRZ 2 em)%R) in *.
  set (Vp := (IZR (Z.pos mp) * powerRZ 2 ep)%R) in *.
  set (Vr := (IZR (Z.pos mr) * powerRZ 2 er)%R) in *.
  assert (∀ m e, 0 < IZR (Z.pos m) * powerRZ 2 e)%R as Hpos.
  { intros m e. pose proof (powerRZ_2_pos e).
    assert (0 < IZR (Z.pos m))%R by (apply IZR_lt; lia). nra. }
  assert (99 / 100 <= Vr)%R as Hlow.
  { apply (four_roundings X Vm Vp Vr); try apply Hpos;
      [exact HRm|exact (proj2 HRp)|exact HRr]. }
  eexists. split; [reflexivity|].
  unfold clamp, min_1.
  destruct (f_lt (S754_finite false mr er) f_one) eqn:Elt.
  - change (max_0 (S754_finite false mr er)) with (S754_finite false mr er).
    pose proof (f_lt_one_R mr er Hmr Elt) as Hup. fold Vr in Hup.
    unfold B2R.
    replace (1 * IZR (Z.pos mr) * powerRZ 2 er)%R with Vr
      by (unfold Vr; ring).
    lra.
  - change (max_0 f_one) with f_one. rewrite B2R_one. lra.
Qed.

(** C1: a text whose normal form has at least [n] characters has similarity
    1.0 with itself, within 0.01.  The length of the normal form is that of
    a Python string. *)
Theorem cosine_self_similarity `{U : UnicodeData}
    (st : caches) (T : str) (n : Z) :
  coherent st → 1 ≤ n → n ≤ len (normalize T) →
  len (normalize T) ≤ PY_SSIZE_T_MAX →
  ∃ v,
    (calculate_cosine_similarity (VStr T) (VStr T) (VInt n) st).1 = Ok v
    ∧ (Rabs (B2R v - 1) <= 1 / 100)%R.
Proof.
  intros Hst Hn Hlen Hmax.
  destruct (calculate_cosine_similarity_uncached T T n st Hst) as [-> _].
  unfold cosine_uncached.
  assert (normalize T ≠ []) as Hne.
  { intros E. rewrite E in Hlen. unfold len in Hlen. simpl in Hlen. lia. }
  rewrite (bool_decide_eq_false_2 _ Hne). simpl orb.
  rewrite get_ngram_frequency_body_count by done.
  set (f := count_ngrams (normalize T) n).
  assert (f ≠ ∅) as Hf.
  { intros E. apply count_ngrams_empty in E; [lia|done]. }
  rewrite (bool_decide_eq_false_2 _ Hf). simpl orb.
  destruct (count_ngrams_sums (normalize T) n Hn) as (Hp & _ & Hs).
  pose proof (square_bound _ Hmax).
  destruct (cosine_of_counters_self f Hp Hf) as (v & -> & Hv);
    [unfold f; lia|].
  exists v. split; [reflexivity|]. apply Rabs_le. lra.
Qed.

Section SelfSimilarityWitness.
#[local] Existing Instance PyFragment.data.

Lemma cosine_self_similarity_witness :
  ∃ v,
    (calculate_cosine_similarity (VStr (txt "Hello, World!"))
       (VStr (txt "Hello, World!")) (VInt 2) no_caches).1 = Ok v
    ∧ (Rabs (B2R v - 1) <= 1 / 100)%R.
Proof.
  apply (cosine_self_similarity no_caches).
  - exact coherent_no_caches.
  - lia.
  - vm_compute. discriminate.
  - vm_compute. discriminate.
Defined.

End SelfSimilarityWitness.

(** ** Writing the result: C10 *)




Section WriteResult.
Context {E : OsEnv}.




End WriteResult.


Section WriteResultWitness.
#[local] Existing Instance PosixExample.os.


End WriteResultWitness.

(** ** The encoder: C9 *)









(** The values of the specification's examples: [0.85] is written as
    [0.85], and the boundary value [0.845] (the double below it) as [0.84]. *)
Lemma encode_examples :
  encode (nearest_double 85 100) = txt "0.85"
  ∧ encode (nearest_double 845 1000) = txt "0.84"
  ∧ encode (nearest_double 1 8) = txt "0.12"
  ∧ encode (nearest_double 3 8) = txt "0.38"
  ∧ encode f_one = txt "1.0" ∧ encode f_zero = txt "0.0".
Proof. vm_compute. repeat split; reflexivity. Qed.


(** ** Failures of the extractor: C7 *)

(** C7 fails on a warm cache: [lru_cache] (with [typed=False]) identifies the
    keys [('ab', 1)] and [('ab', 1.0)], so after [get_ngram_frequency('ab', 1)]
    the call [get_ngram_frequency('ab', 1.0)] returns the stored counter
    although [1.0] is not an [int]; on an empty cache the same call raises
    the [PaperCheckException] of the check on [n]. *)
Lemma get_ngram_frequency_float_after_int :
  let '(r1, st1) := get_ngram_frequency (VStr (txt "ab")) (VInt 1) no_caches in
  let '(r2, _) := get_ngram_frequency (VStr (txt "ab")) (VFloat f_one) st1 in
  let '(r3, _) :=
    get_ngram_frequency (VStr (txt "ab")) (VFloat f_one) no_caches in
  r1 = Ok {[ txt "a" := 1; txt "b" := 1 ]}
  ∧ r2 = r1
  ∧ r3 = Raise (PaperCheckException MsgNNotPositiveInt)
  ∧ ¬ positive_int (VFloat f_one).
Proof.
  vm_compute. split_and!; try reflexivity. intros (z & Hz & _). discriminate Hz.
Qed.

Lemma py_eq_str_l s k : py_eq (VStr s) k = true → k = VStr s.
Proof.
  destruct k as [| | |f|t|]; simpl; try done.
  by intros ->%bool_decide_eq_true.
Qed.








Section ExtractorWitness.
#[local] Existing Instance PyFragment.data.


End ExtractorWitness.

(** ** The returned score is the clamped quotient: C2 *)

Lemma min_max_positive (m P : positive) (e Q : Z) :
  let s := S754_finite false m e in
  let one := S754_finite false P Q in
  (if SFltb (S754_zero false) (if SFltb s one then s else one)
   then (if SFltb s one then s else one) else S754_zero false)
  = if SFltb one s then one else s.
Proof.
  intros s one. unfold s, one, SFltb, SFcompare.
  change (Pos.compare_cont Eq m P) with (Pos.compare m P).
  change (Pos.compare_cont Eq P m) with (Pos.compare P m).
  rewrite (Z.compare_antisym e Q), (Pos.compare_antisym m P).
  destruct (e ?= Q) eqn:Ee; cbn [CompOpp]; try reflexivity.
  destruct (m ?= P)%positive eqn:Em; cbn [CompOpp]; try reflexivity.
  apply Z.compare_eq in Ee. apply Pos.compare_eq in Em. by subst.
Qed.

(** On a positive finite similarity the clamp is [min(1.0, .)]. *)
Lemma clamp_positive m e :
  clamp (S754_finite false m e)
  = if f_lt f_one (S754_finite false m e) then f_one else S754_finite false m e.
Proof.
  unfold clamp, min_1, max_0, f_lt, f_one, f_zero. apply min_max_positive.
Qed.

(** From two non-empty counters of strings of admissible length the scorer
    returns the quotient of Steps 5 to 8, a number not below zero, or 1.0
    if the quotient is above it. *)
Lemma cosine_of_counters_value (f1 f2 : gmap str Z) :
  positive_counts f1 → positive_counts f2 → f1 ≠ ∅ → f2 ≠ ∅ →
  sum_squares f1 < 2 ^ 126 → sum_squares f2 < 2 ^ 126 →
  ∃ s, computed_similarity f1 f2 s
    ∧ f_le f_zero s = true
    ∧ cosine_of_counters f1 f2 = Ok (clamp s)
    ∧ clamp s = (if f_lt f_one s then f_one else s).
Proof.
  intros Hp1 Hp2 Hne1 Hne2 Hs1 Hs2.
  pose proof (positive_sum_squares f1 Hp1 Hne1) as Hn1.
  pose proof (positive_sum_squares f2 Hp2 Hne2) as Hn2.
  destruct (math_sqrt_small (sum_squares f1)) as (x1 & m1 & Ex1 & Em1 & H1);
    [lia|].
  destruct (math_sqrt_small (sum_squares f2)) as (x2 & m2 & Ex2 & Em2 & H2);
    [lia|].
  destruct H1 as [[? _]|(_ & mx1 & ex1 & mm1 & em1 & -> & -> & _ & Hmm1 & _ & Hem1 & _)];
    [lia|].
  destruct H2 as [[? _]|(_ & mx2 & ex2 & mm2 & em2 & -> & -> & _ & Hmm2 & _ & Hem2 & _)];
    [lia|].
  assert (S754_finite false mm1 em1 = f_sqrt (S754_finite false mx1 ex1)) as Eq1.
  { unfold math_sqrt in Em1. rewrite Ex1 in Em1.
    destruct (f_lt _ f_zero); [discriminate Em1|]. by injection Em1 as <-. }
  assert (S754_finite false mm2 em2 = f_sqrt (S754_finite false mx2 ex2)) as Eq2.
  { unfold math_sqrt in Em2. rewrite Ex2 in Em2.
    destruct (f_lt _ f_zero); [discriminate Em2|]. by injection Em2 as <-. }
  destruct (f_mul_normal mm1 em1 mm2 em2 Hmm1 Hmm2) as (mp & ep & Ep & Hmp & Hep & _);
    [lia|].
  pose proof (dot_over_bounds f1 f2 Hp1 Hp2) as Hdot.
  set (D := dot_over (dom f1 ∩ dom f2) f1 f2) in *.
  destruct (float_of_int_small D) as (d & Ed & Hd); [lia|].
  assert (cosine_of_counters f1 f2
          = Ok (clamp (f_div d (S754_finite false mp ep)))) as Ecos.
  { unfold cosine_of_counters. rewrite Em1, Em2, Ep. cbv zeta.
    change (f_eq (S754_finite false mp ep) f_zero) with false. cbv iota.
    fold D. unfold int_truediv. rewrite Ed.
    change (f_eq (S754_finite false mp ep) f_zero) with false. reflexivity. }
  exists (f_div d (S754_finite false mp ep)).
  assert (computed_similarity f1 f2 (f_div d (S754_finite false mp ep))) as Hcs.
  { exists d, (S754_finite false mx1 ex1), (S754_finite false mx2 ex2).
    rewrite <- dot_over_sum, <- !sum_squares_msum.
    split_and!; [exact Ed|exact Ex1|exact Ex2|].
    by rewrite <- Eq1, <- Eq2, Ep. }
  split; [exact Hcs|]. rewrite Ecos.
  destruct Hd as [[_ ->] | (md & ed & -> & Hmd & Hed & _)].
  - split_and!; reflexivity.
  - assert (D ≠ 0) as HD0 by (intros HD0; rewrite HD0 in Ed; discriminate Ed).
    assert (Zdigits2 D ≤ 127) as HdD
      by (apply (Zdigits2_range D 0 127); simpl; lia).
    destruct (f_div_normal md ed mp ep Hmd Hmp) as (mq & eq & -> & _);
      [lia|].
    split_and!; [reflexivity|reflexivity|apply clamp_positive].
Qed.

(** C2: on two texts and a positive [n] the scorer returns a float in
    [0.0, 1.0].  It is 0.0 when a normalised text is shorter than [n]
    (empty, or without n-grams); otherwise it is the computed similarity,
    the dot product over the common n-grams divided by the product of the
    magnitudes, which is not below 0.0, clamped: 1.0 when the similarity is
    above 1.0 and the similarity itself when it is not.  The lengths of the
    normalised texts are those of Python strings. *)
Theorem cosine_similarity_range `{U : UnicodeData}
    (st : caches) (A B : str) (n : Z) :
  coherent st → 1 ≤ n →
  len (normalize A) ≤ PY_SSIZE_T_MAX → len (normalize B) ≤ PY_SSIZE_T_MAX →
  ∃ v,
    (calculate_cosine_similarity (VStr A) (VStr B) (VInt n) st).1 = Ok v
    ∧ f_le f_zero v = true ∧ f_le v f_one = true
    ∧ (len (normalize A) < n ∨ len (normalize B) < n → v = f_zero)
    ∧ (n ≤ len (normalize A) → n ≤ len (normalize B) →
       ∃ similarity,
         computed_similarity (count_ngrams (normalize A) n)
           (count_ngrams (normalize B) n) similarity
         ∧ f_le f_zero similarity = true
         ∧ v = (if f_lt f_one similarity then f_one else similarity)
         ∧ v = clamp similarity).
Proof.
  intros Hst Hn HA HB.
  destruct (calculate_cosine_similarity_uncached A B n st Hst) as [-> _].
  unfold cosine_uncached.
  set (a := normalize A) in *. set (b := normalize B) in *.
  assert (∀ t : str, t = [] → len t < n) as Hempty
    by (intros t ->; unfold len; simpl; lia).
  assert (∀ v : float, v = f_zero →
            f_le f_zero v = true ∧ f_le v f_one = true) as Hzero
    by (intros v ->; split; reflexivity).
  destruct (bool_decide (a = []) || bool_decide (b = [])) eqn:Ee.
  { exists f_zero. split_and!; try reflexivity.
    intros Ha Hb. apply orb_true_iff in Ee as [E|E];
      apply bool_decide_eq_true, Hempty in E; lia. }
  rewrite !get_ngram_frequency_body_count by done.
  destruct (bool_decide (count_ngrams a n = ∅)
            || bool_decide (count_ngrams b n = ∅)) eqn:Ef.
  { exists f_zero. split_and!; try reflexivity.
    intros Ha Hb. apply orb_true_iff in Ef as [E|E];
      apply bool_decide_eq_true, count_ngrams_empty in E; lia. }
  apply orb_false_iff in Ef as [Ef1 Ef2].
  apply bool_decide_eq_false in Ef1, Ef2.
  destruct (count_ngrams_sums a n Hn) as (Hp1 & _ & Hs1).
  destruct (count_ngrams_sums b n Hn) as (Hp2 & _ & Hs2).
  pose proof (square_bound _ HA). pose proof (square_bound _ HB).
  destruct (cosine_of_counters_value _ _ Hp1 Hp2 Ef1 Ef2)
    as (s & Hcs & Hs0 & -> & Hclamp); [lia|lia|].
  exists (clamp s).
  assert (len a < n ∨ len b < n → False) as Hlen.
  { intros [H'|H']; apply count_ngrams_empty in H'; done. }
  split_and!.
  - reflexivity.
  - apply clamp_range.
  - apply clamp_range.
  - intros H'. destruct (Hlen H').
  - intros _ _. exists s. split_and!; done.
Qed.

Section RangeWitness.
#[local] Existing Instance PyFragment.data.

Lemma cosine_similarity_range_witness :
  ∃ v,
    (calculate_cosine_similarity (VStr (txt "abcd")) (VStr (txt "abcx"))
       (VInt 2) no_caches).1 = Ok v
    ∧ f_le f_zero v = true ∧ f_le v f_one = true
    ∧ (len (normalize (txt "abcd")) < 2 ∨ len (normalize (txt "abcx")) < 2 →
       v = f_zero)
    ∧ (2 ≤ len (normalize (txt "abcd")) → 2 ≤ len (normalize (txt "abcx")) →
       ∃ similarity,
         computed_similarity (count_ngrams (normalize (txt "abcd")) 2)
           (count_ngrams (normalize (txt "abcx")) 2) similarity
         ∧ f_le f_zero similarity = true
         ∧ v = (if f_lt f_one similarity then f_one else similarity)
         ∧ v = clamp similarity).
Proof.
  apply (cosine_similarity_range no_caches).
  - exact coherent_no_caches.
  - lia.
  - vm_compute. discriminate.
  - vm_compute. discriminate.
Defined.

End RangeWitness.

(** ** The invariant of the normalised text: C5 (amended) *)

(** What [re.sub(r'[^\w\s]', '', text)] keeps: the word and white-space
    characters of the text. *)
Lemma remove_non_word_elem `{U : UnicodeData} (T : str) c :
  c ∈ remove_non_word T ↔ c ∈ T ∧ (is_word c = true ∨ is_space c = true).
Proof.
  unfold remove_non_word. rewrite list_elem_of_filter.
  rewrite orb_true_iff. tauto.
Qed.

(** C5 (amended): for every input text whose word characters stay word
    characters under lower-casing, [normalize(text)] contains only word
    characters and single ASCII spaces, none leading or trailing, and is in
    lower case. *)
Theorem normalize_invariant `{U : UnicodeData} (st : caches) (T : str) :
  UnicodeLaws U → coherent st → lower_keeps_words T →
  ∃ y, (preprocess_text (VStr T) st).1 = Ok y ∧ normalized_text y.
Proof.
  intros HU Hst Hlow. exists (normalize T).
  split; [by apply preprocess_text_str|].
  split_and!.
  - intros c [->|[Hc Hin]]%normalize_elem; [by right|].
    destruct (Hlow (remove_non_word T)
                (λ x Hx, proj1 (remove_non_word_elem T x) Hx) c Hin);
      [by left|]. unfold is_space in *. congruence.
  - eapply spaced_single_spaced, normalize_spaced.
  - apply strip_trimmed.
  - apply normalize_lower.
Qed.

Section NormalizeWitnesses.
#[local] Existing Instance PyFragment.data.

Lemma normalize_invariant_witness :
  ∃ y, (preprocess_text (VStr (txt " Hello,  World! ")) no_caches).1 = Ok y
    ∧ normalized_text y.
Proof.
  apply (normalize_invariant no_caches).
  - exact PyFragmentFacts.laws.
  - exact coherent_no_caches.
  - intros w Hw c (x & Hc & Hx)%list_elem_of_bind.
    destruct (Hw x Hx) as [HxT Hword]. clear Hw Hx.
    apply list_elem_of_In in HxT. simpl in HxT.
    repeat (destruct HxT as [<-|HxT];
            [vm_compute in Hc; apply list_elem_of_In in Hc; simpl in Hc;
             destruct Hc as [<-|[]]; vm_compute in Hword; vm_compute;
             first [by left|by right|destruct Hword; discriminate]|]).
    done.
Defined.

End NormalizeWitnesses.

(** * Further properties of the code *)

(** ** The counter of [get_ngram_frequency] *)

Lemma count_ngrams_key (text : str) (n : Z) (g : str) :
  1 ≤ n → g ∈ dom (count_ngrams text n) →
  len g = n ∧ ∀ c, c ∈ g → c ∈ text.
Proof.
  intros Hn [v Hv]%elem_of_dom.
  replace n with (Z.of_nat (Z.to_nat n)) in Hv by lia.
  rewrite count_ngrams_lookup in Hv.
  destruct (decide (0 < occurrences text (Z.to_nat n) g)) as [Hocc|]; [|done].
  unfold occurrences in Hocc.
  destruct (filter _ _) as [|i l] eqn:Ef in Hocc; [simpl in Hocc; lia|].
  assert (i ∈ filter (λ i, take (Z.to_nat n) (drop i text) = g)
                (seq 0 (length text + 1 - Z.to_nat n))) as Hi
    by (rewrite Ef; set_solver).
  apply list_elem_of_filter in Hi as [<- Hi]. apply elem_of_seq in Hi.
  split.
  - unfold len. rewrite length_take, length_drop. lia.
  - intros c Hc. by apply (subseteq_drop i text), (subseteq_take (Z.to_nat n)).
Qed.

(** On a string and a positive [int] the extractor returns a counter whose
    counts are all at least 1 and add up to the number of windows,
    [max(0, len(text) - n + 1)]; it is empty exactly when the text is shorter
    than [n], and every key has [n] characters. *)
Theorem ngram_counts_total `{U : UnicodeData}
    (st : caches) (text : str) (n : Z) :
  coherent st → 1 ≤ n →
  ∃ freq,
    (get_ngram_frequency (VStr text) (VInt n) st).1 = Ok freq
    ∧ positive_counts freq
    ∧ msum (λ v, v) freq = Z.max 0 (len text - n + 1)
    ∧ (freq = ∅ ↔ len text < n)
    ∧ ∀ g, g ∈ dom freq → len g = n.
Proof.
  intros Hst Hn. exists (count_ngrams text n).
  rewrite get_ngram_frequency_int, get_ngram_frequency_body_count by done.
  destruct (count_ngrams_sums text n Hn) as (Hp & Hs & _).
  split_and!; [done|done|done|by apply count_ngrams_empty|].
  intros g Hg. by apply (count_ngrams_key text n g).
Qed.

Section CountsWitness.
#[local] Existing Instance PyFragment.data.

Lemma ngram_counts_total_witness :
  ∃ freq,
    (get_ngram_frequency (VStr (txt "banana")) (VInt 2) no_caches).1 = Ok freq
    ∧ positive_counts freq
    ∧ msum (λ v, v) freq = Z.max 0 (len (txt "banana") - 2 + 1)
    ∧ (freq = ∅ ↔ len (txt "banana") < 2)
    ∧ ∀ g, g ∈ dom freq → len g = 2.
Proof.
  apply (ngram_counts_total no_caches (txt "banana") 2).
  - exact coherent_no_caches.
  - lia.
Defined.

End CountsWitness.

(** ** The normaliser on every text *)

(** Whatever the text, the normalised text has white space only as single
    ASCII spaces, none leading or trailing, is unchanged by [str.lower], and
    each of its characters is a space or occurs in the lower case of a text
    made of word and white-space characters of the input. *)
Theorem normalize_shape `{U : UnicodeData} (st : caches) (T : str) :
  UnicodeLaws U → coherent st →
  ∃ y, (preprocess_text (VStr T) st).1 = Ok y
    ∧ single_spaced y ∧ trimmed y ∧ str_lower y = y
    ∧ ∀ c, c ∈ y →
        c = 32%N
        ∨ ∃ w, (∀ x, x ∈ w → x ∈ T ∧ (is_word x = true ∨ is_space x = true))
               ∧ c ∈ str_lower w.
Proof.
  intros HU Hst. exists (normalize T).
  split_and!.
  - by apply preprocess_text_str.
  - eapply spaced_single_spaced, normalize_spaced.
  - apply strip_trimmed.
  - apply normalize_lower.
  - intros c [->|[_ Hin]]%normalize_elem; [by left|]. right.
    exists (remove_non_word T). split; [|done].
    intros x Hx. by apply remove_non_word_elem.
Qed.

Section ShapeWitness.
#[local] Existing Instance PyFragment.data.

Lemma normalize_shape_witness :
  ∃ y, (preprocess_text (VStr [304; 32; 32; 65; 44]%N) no_caches).1 = Ok y
    ∧ single_spaced y ∧ trimmed y ∧ str_lower y = y
    ∧ ∀ c, c ∈ y →
        c = 32%N
        ∨ ∃ w, (∀ x, x ∈ w →
                  x ∈ [304; 32; 32; 65; 44]%N
                  ∧ (is_word x = true ∨ is_space x = true))
               ∧ c ∈ str_lower w.
Proof.
  apply (normalize_shape no_caches).
  - exact PyFragmentFacts.laws.
  - exact coherent_no_caches.
Defined.

End ShapeWitness.

(** ** The cached normaliser on any value *)

Lemma preprocess_text_not_str `{U : UnicodeData} (st : caches) text :
  coherent st → as_str text = None →
  preprocess_text text st
  = (Raise (if hashable text then PaperCheckException MsgPreprocessNotStr
            else TypeError), st).
Proof.
  intros [H1 _] Htext. destruct st as [pc nc].
  unfold preprocess_text, lru_cache. simpl in *.
  destruct (hashable text) eqn:Hh; [|done].
  destruct (cache_find py_eq text pc) as [[[k v] rest]|] eqn:Hfind.
  - apply (cache_find_Some hashable py_eq preprocess_text_body) in Hfind
      as (Hk & Hin & _). simpl in Hk.
    apply H1 in Hin. unfold preprocess_text_body in Hin.
    destruct k as [| | | |s|]; simpl in Hin; try done.
    apply py_eq_str_l in Hk. subst text. discriminate Htext.
  - unfold preprocess_text_body. by rewrite Htext.
Qed.

(** [preprocess_text] returns the normalised text of a string whatever the
    cache holds; on a value that is not a string it raises, a
    [PaperCheckException] or the wrapper's [TypeError] on a list, and leaves
    the caches as they were. *)
Theorem preprocess_text_failures `{U : UnicodeData} (st : caches) text :
  coherent st →
  (∀ t, text = VStr t → (preprocess_text text st).1 = Ok (normalize t))
  ∧ (as_str text = None →
     preprocess_text text st
     = (Raise (if hashable text then PaperCheckException MsgPreprocessNotStr
               else TypeError), st)).
Proof.
  intros Hst. split; [intros t ->; by apply preprocess_text_str|].
  by apply preprocess_text_not_str.
Qed.

Section PreprocessWitness.
#[local] Existing Instance PyFragment.data.

Lemma preprocess_text_failures_witness :
  (∀ t, VInt 7 = VStr t → (preprocess_text (VInt 7) no_caches).1 = Ok (normalize t))
  ∧ (as_str (VInt 7) = None →
     preprocess_text (VInt 7) no_caches
     = (Raise (if hashable (VInt 7) then PaperCheckException MsgPreprocessNotStr
               else TypeError), no_caches)).
Proof.
  apply (preprocess_text_failures no_caches (VInt 7)).
  exact coherent_no_caches.
Defined.

End PreprocessWitness.

(** ** The scorer: caches, degenerate inputs, failures *)

(** Memoisation is transparent: with any coherent caches the scorer returns
    what it returns from empty caches, and it leaves the caches coherent. *)
Theorem cosine_similarity_cache_transparent `{U : UnicodeData}
    (st : caches) (A B : str) (n : Z) :
  coherent st →
  (calculate_cosine_similarity (VStr A) (VStr B) (VInt n) st).1
  = (calculate_cosine_similarity (VStr A) (VStr B) (VInt n) no_caches).1
  ∧ coherent (calculate_cosine_similarity (VStr A) (VStr B) (VInt n) st).2.
Proof.
  intros Hst.
  destruct (calculate_cosine_similarity_uncached A B n st Hst) as [-> Hc].
  destruct (calculate_cosine_similarity_uncached A B n no_caches
              coherent_no_caches) as [-> _].
  done.
Qed.

Section TransparentWitness.
#[local] Existing Instance PyFragment.data.

Lemma cosine_similarity_cache_transparent_witness :
  let st := (get_ngram_frequency (VStr (txt "ab")) (VInt 2) no_caches).2 in
  (calculate_cosine_similarity (VStr (txt "ab")) (VStr (txt "abc")) (VInt 2) st).1
  = (calculate_cosine_similarity (VStr (txt "ab")) (VStr (txt "abc")) (VInt 2)
       no_caches).1
  ∧ coherent
      (calculate_cosine_similarity (VStr (txt "ab")) (VStr (txt "abc")) (VInt 2)
         st).2.
Proof.
  apply (cosine_similarity_cache_transparent
           (get_ngram_frequency (VStr (txt "ab")) (VInt 2) no_caches).2).
  apply get_ngram_frequency_coherent. exact coherent_no_caches.
Defined.

End TransparentWitness.

(** When a text is blank after normalisation the scorer returns 0.0 before
    it looks at [n]: whatever [n] is, a valid size or not. *)
Theorem cosine_similarity_blank `{U : UnicodeData}
    (st : caches) (A B : str) (n : pyval) :
  coherent st → normalize A = [] ∨ normalize B = [] →
  (calculate_cosine_similarity (VStr A) (VStr B) n st).1 = Ok f_zero.
Proof.
  intros Hst Hblank.
  unfold calculate_cosine_similarity, try_except, bind, ret.
  pose proof (preprocess_text_str A st Hst) as H1.
  pose proof (preprocess_text_coherent (VStr A) st Hst) as Hst1.
  destruct (preprocess_text (VStr A) st) as [r1 st1]. simpl in H1, Hst1.
  subst r1.
  pose proof (preprocess_text_str B st1 Hst1) as H2.
  destruct (preprocess_text (VStr B) st1) as [r2 st2]. simpl in H2.
  subst r2.
  assert (bool_decide (normalize A = []) || bool_decide (normalize B = [])
          = true) as ->; [|done].
  apply orb_true_iff. destruct Hblank; [left|right]; by apply bool_decide_eq_true.
Qed.

Section BlankWitness.
#[local] Existing Instance PyFragment.data.

Lemma cosine_similarity_blank_witness :
  (calculate_cosine_similarity (VStr (txt "some text")) (VStr (txt " ?! "))
     (VInt 0) no_caches).1 = Ok f_zero.
Proof.
  apply (cosine_similarity_blank no_caches).
  - exact coherent_no_caches.
  - right. vm_compute. reflexivity.
Defined.

End BlankWitness.

(** The product of the magnitudes of two non-empty counters of strings of
    admissible length is a positive normal number. *)
Lemma magnitudes_normal (f1 f2 : gmap str Z) :
  positive_counts f1 → positive_counts f2 → f1 ≠ ∅ → f2 ≠ ∅ →
  sum_squares f1 < 2 ^ 126 → sum_squares f2 < 2 ^ 126 →
  ∃ m1 m2 mp ep,
    math_sqrt (sum_squares f1) = Ok m1 ∧ math_sqrt (sum_squares f2) = Ok m2
    ∧ f_mul m1 m2 = S754_finite false mp ep.
Proof.
  intros Hp1 Hp2 Hne1 Hne2 Hs1 Hs2.
  pose proof (positive_sum_squares f1 Hp1 Hne1) as Hn1.
  pose proof (positive_sum_squares f2 Hp2 Hne2) as Hn2.
  destruct (math_sqrt_small (sum_squares f1)) as (x1 & m1 & Ex1 & Em1 & H1);
    [lia|].
  destruct (math_sqrt_small (sum_squares f2)) as (x2 & m2 & Ex2 & Em2 & H2);
    [lia|].
  destruct H1 as [[? _]|(_ & mx1 & ex1 & mm1 & em1 & -> & -> & _ & Hmm1 & _ & Hem1 & _)];
    [lia|].
  destruct H2 as [[? _]|(_ & mx2 & ex2 & mm2 & em2 & -> & -> & _ & Hmm2 & _ & Hem2 & _)];
    [lia|].
  destruct (f_mul_normal mm1 em1 mm2 em2 Hmm1 Hmm2) as (mp & ep & Ep & _);
    [lia|].
  eauto 10.
Qed.

(** Counters without a common key score 0.0. *)
Lemma cosine_of_counters_orthogonal (f1 f2 : gmap str Z) :
  positive_counts f1 → positive_counts f2 → f1 ≠ ∅ → f2 ≠ ∅ →
  sum_squares f1 < 2 ^ 126 → sum_squares f2 < 2 ^ 126 →
  dom f1 ∩ dom f2 = ∅ →
  cosine_of_counters f1 f2 = Ok f_zero.
Proof.
  intros Hp1 Hp2 Hne1 Hne2 Hs1 Hs2 Hdis.
  destruct (magnitudes_normal f1 f2) as (m1 & m2 & mp & ep & E1 & E2 & Ep);
    try done.
  unfold cosine_of_counters. rewrite E1, E2, Ep, Hdis. cbv zeta.
  change (f_eq (S754_finite false mp ep) f_zero) with false. cbv iota.
  unfold dot_over. rewrite set_fold_empty. reflexivity.
Qed.

(** Texts without a common character after normalisation score 0.0. *)
Theorem cosine_similarity_disjoint `{U : UnicodeData}
    (st : caches) (A B : str) (n : Z) :
  coherent st → 1 ≤ n →
  len (normalize A) ≤ PY_SSIZE_T_MAX → len (normalize B) ≤ PY_SSIZE_T_MAX →
  (∀ c, c ∈ normalize A → c ∉ normalize B) →
  (calculate_cosine_similarity (VStr A) (VStr B) (VInt n) st).1 = Ok f_zero.
Proof.
  intros Hst Hn HA HB Hdis.
  destruct (calculate_cosine_similarity_uncached A B n st Hst) as [-> _].
  unfold cosine_uncached.
  destruct (_ || _); [done|].
  rewrite !get_ngram_frequency_body_count by done.
  destruct (bool_decide (count_ngrams (normalize A) n = ∅)
            || bool_decide (count_ngrams (normalize B) n = ∅)) eqn:Ef; [done|].
  apply orb_false_iff in Ef as [Ef1 Ef2].
  apply bool_decide_eq_false in Ef1, Ef2.
  destruct (count_ngrams_sums (normalize A) n Hn) as (Hp1 & _ & Hs1).
  destruct (count_ngrams_sums (normalize B) n Hn) as (Hp2 & _ & Hs2).
  pose proof (square_bound _ HA). pose proof (square_bound _ HB).
  rewrite cosine_of_counters_orthogonal; [done..|lia|lia|].
  apply set_eq. intros g. split; [|set_solver].
  intros [Hg1 Hg2]%elem_of_intersection.
  apply count_ngrams_key in Hg1 as [Hlen Hin1]; [|done].
  apply count_ngrams_key in Hg2 as [_ Hin2]; [|done].
  destruct g as [|c g]; [unfold len in Hlen; simpl in Hlen; lia|].
  destruct (Hdis c); [apply Hin1|apply Hin2]; set_solver.
Qed.

Section DisjointWitness.
#[local] Existing Instance PyFragment.data.

Lemma cosine_similarity_disjoint_witness :
  (calculate_cosine_similarity (VStr (txt "Apple, banana"))
     (VStr [27773; 36710; 39134; 26426]%N) (VInt 2) no_caches).1
  = Ok f_zero.
Proof.
  apply (cosine_similarity_disjoint no_caches).
  - exact coherent_no_caches.
  - lia.
  - vm_compute. discriminate.
  - vm_compute. discriminate.
  - intros c Hc Hc'. vm_compute in Hc, Hc'.
    apply list_elem_of_In in Hc. apply list_elem_of_In in Hc'.
    simpl in Hc, Hc'.
    repeat (destruct Hc as [<-|Hc];
            [repeat (destruct Hc' as [Hc'|Hc']; [discriminate Hc'|]); done|]).
    done.
Defined.

End DisjointWitness.

(** On two texts that are not blank, an [int] below 1 for [n] makes the
    scorer raise: the [PaperCheckException] of the extractor, wrapped into
    the scorer's own. *)
Theorem cosine_similarity_invalid_n `{U : UnicodeData}
    (st : caches) (A B : str) (n : Z) :
  coherent st → n < 1 → normalize A ≠ [] → normalize B ≠ [] →
  (calculate_cosine_similarity (VStr A) (VStr B) (VInt n) st).1
  = Raise (PaperCheckException
             (MsgCosineFailed (PaperCheckException MsgNNotPositiveInt))).
Proof.
  intros Hst Hn HA HB.
  destruct (calculate_cosine_similarity_uncached A B n st Hst) as [-> _].
  unfold cosine_uncached.
  assert (bool_decide (normalize A = []) || bool_decide (normalize B = [])
          = false) as ->.
  { apply orb_false_iff. split; by apply bool_decide_eq_false. }
  unfold get_ngram_frequency_body. simpl.
  assert (n <? 1 = true) as -> by lia. reflexivity.
Qed.

Section InvalidNWitness.
#[local] Existing Instance PyFragment.data.

Lemma cosine_similarity_invalid_n_witness :
  (calculate_cosine_similarity (VStr (txt "ab")) (VStr (txt "cd")) (VInt 0)
     no_caches).1
  = Raise (PaperCheckException
             (MsgCosineFailed (PaperCheckException MsgNNotPositiveInt))).
Proof.
  apply (cosine_similarity_invalid_n no_caches).
  - exact coherent_no_caches.
  - lia.
  - vm_compute. discriminate.
  - vm_compute. discriminate.
Defined.

End InvalidNWitness.

(** Whatever the arguments and the caches, the only exception the scorer
    raises is its own [PaperCheckException]; a first argument that is not a
    string gives the normaliser's exception, or the wrapper's [TypeError] on
    a list, as its cause. *)
Theorem cosine_similarity_raises_wrapped `{U : UnicodeData}
    (st : caches) (text1 text2 n : pyval) :
  coherent st →
  (∀ e, (calculate_cosine_similarity text1 text2 n st).1 = Raise e →
        ∃ cause, e = PaperCheckException (MsgCosineFailed cause))
  ∧ (as_str text1 = None →
     (calculate_cosine_similarity text1 text2 n st).1
     = Raise (PaperCheckException
                (MsgCosineFailed
                   (if hashable text1
                    then PaperCheckException MsgPreprocessNotStr
                    else TypeError)))).
Proof.
  intros Hst. split.
  - unfold calculate_cosine_similarity, try_except. intros e.
    destruct (bind _ _ st) as [[v|e'] st']; simpl; [done|].
    intros [= <-]. eauto.
  - intros Htext.
    unfold calculate_cosine_similarity, try_except, bind.
    by rewrite (preprocess_text_not_str st text1 Hst Htext).
Qed.

Section WrappedWitness.
#[local] Existing Instance PyFragment.data.

Lemma cosine_similarity_raises_wrapped_witness :
  (∀ e, (calculate_cosine_similarity VNone (VStr (txt "ab")) (VInt 2)
           no_caches).1 = Raise e →
        ∃ cause, e = PaperCheckException (MsgCosineFailed cause))
  ∧ (as_str VNone = None →
     (calculate_cosine_similarity VNone (VStr (txt "ab")) (VInt 2) no_caches).1
     = Raise (PaperCheckException
                (MsgCosineFailed
                   (if hashable VNone
                    then PaperCheckException MsgPreprocessNotStr
                    else TypeError)))).
Proof.
  apply (cosine_similarity_raises_wrapped no_caches).
  exact coherent_no_caches.
Defined.

End WrappedWitness.

(** ** The size of the caches *)

Section CacheSize.
Context {K V : Type}.
Variable key_hashable : K → bool.
Variable key_eq : K → K → bool.
Variable maxsize : nat.
Variable f : K → result V.

Lemma cache_find_length k (c : list (K * V)) hit rest :
  cache_find key_eq k c = Some (hit, rest) → length c = S (length rest).
Proof.
  revert hit rest. induction c as [|e c IH]; intros hit rest; simpl; [done|].
  destruct (key_eq e.1 k).
  - by intros [= <- <-].
  - destruct (cache_find key_eq k c) as [[hit' rest']|]; [|done].
    intros [= <- <-]. simpl. by rewrite (IH _ _ eq_refl).
Qed.

Lemma length_removelast (c : list (K * V)) :
  length (removelast c) = pred (length c).
Proof. rewrite removelast_firstn_len, length_take. lia. Qed.

Lemma lru_cache_length k c :
  (0 < maxsize)%nat → (length c ≤ maxsize)%nat →
  (length (lru_cache key_hashable key_eq maxsize f k c).2 ≤ maxsize)%nat.
Proof.
  intros Hpos Hc. unfold lru_cache.
  destruct (key_hashable k); [|done].
  destruct (cache_find key_eq k c) as [[hit rest]|] eqn:Hfind.
  - apply cache_find_length in Hfind. simpl. lia.
  - destruct (f k); [|done]. unfold cache_store. simpl.
    case_decide; [rewrite length_removelast|]; lia.
Qed.

End CacheSize.

Section CacheSizeCalls.
Context {U : UnicodeData}.

Lemma preserves_ret (P : caches → Prop) {A} (a : A) : preserves P (ret a).
Proof. by intros st. Qed.

Lemma preserves_lift (P : caches → Prop) {A} (r : result A) :
  preserves P (lift r).
Proof. by intros st. Qed.

Lemma preserves_bind (P : caches → Prop) {A B} (m : M A) (k : A → M B) :
  preserves P m → (∀ a, preserves P (k a)) → preserves P (bind m k).
Proof.
  intros Hm Hk st Hst. unfold bind. specialize (Hm st Hst).
  destruct (m st) as [[a|e] st']; simpl in *; [by apply Hk|done].
Qed.

Lemma preserves_try_except (P : caches → Prop) {A} (m : M A) h :
  preserves P m → preserves P (try_except m h).
Proof.
  intros Hm st Hst. unfold try_except. specialize (Hm st Hst).
  by destruct (m st) as [[a|e] st'].
Qed.

Lemma preprocess_text_within text :
  preserves (caches_within 128) (preprocess_text text).
Proof.
  intros st [H1 H2]. unfold preprocess_text.
  pose proof (lru_cache_length hashable py_eq 128 preprocess_text_body text
                (preprocess_cache st) ltac:(lia) H1) as Hl.
  destruct (lru_cache _ _ _ _ _ _) as [r c]. by split.
Qed.

Lemma get_ngram_frequency_within text n :
  preserves (caches_within 128) (get_ngram_frequency text n).
Proof.
  intros st [H1 H2]. unfold get_ngram_frequency.
  pose proof (lru_cache_length key2_hashable key2_eq 128
                (λ k, get_ngram_frequency_body k.1 k.2) (text, n)
                (ngram_cache st) ltac:(lia) H2) as Hl.
  destruct (lru_cache _ _ _ _ _ _) as [r c]. by split.
Qed.

Lemma calculate_cosine_similarity_within text1 text2 n :
  preserves (caches_within 128) (calculate_cosine_similarity text1 text2 n).
Proof.
  unfold calculate_cosine_similarity.
  apply preserves_try_except, preserves_bind; [apply preprocess_text_within|].
  intros t1. apply preserves_bind; [apply preprocess_text_within|].
  intros t2. destruct (_ || _); [apply preserves_ret|].
  apply preserves_bind; [apply get_ngram_frequency_within|].
  intros f1. apply preserves_bind; [apply get_ngram_frequency_within|].
  intros f2. destruct (_ || _); [apply preserves_ret|apply preserves_lift].
Qed.

End CacheSizeCalls.

(** The caches never grow past [maxsize=128]: each of the two cached
    functions and the scorer, called on any arguments with caches of at most
    128 entries each, leaves caches of at most 128 entries each. *)
Theorem caches_stay_within_maxsize `{U : UnicodeData}
    (st : caches) (text1 text2 n : pyval) :
  caches_within 128 st →
  caches_within 128 (preprocess_text text1 st).2
  ∧ caches_within 128 (get_ngram_frequency text1 n st).2
  ∧ caches_within 128 (calculate_cosine_similarity text1 text2 n st).2.
Proof.
  intros Hst. split_and!.
  - by apply preprocess_text_within.
  - by apply get_ngram_frequency_within.
  - by apply calculate_cosine_similarity_within.
Qed.

Section CacheSizeWitness.
#[local] Existing Instance PyFragment.data.

Lemma caches_stay_within_maxsize_witness :
  caches_within 128 (preprocess_text (VStr (txt "a b")) no_caches).2
  ∧ caches_within 128
      (get_ngram_frequency (VStr (txt "a b")) (VInt 2) no_caches).2
  ∧ caches_within 128
      (calculate_cosine_similarity (VStr (txt "a b")) (VStr (txt "b a"))
         (VInt 2) no_caches).2.
Proof.
  apply (caches_stay_within_maxsize no_caches).
  split; simpl; lia.
Defined.

End CacheSizeWitness.

(** ** Paths and the result file *)

(** [validate_file_path] accepts exactly the non-empty strings of at most
    260 characters whose directory, if they name one, exists and is writable
    (for an output path), or that exist and are readable (for an input
    path); everything else raises a [PaperCheckException]. *)
Theorem validate_file_path_accepts `{E : OsEnv}
    (file_path : pyval) (is_output : bool) :
  (validate_file_path file_path is_output = Ok tt
   ↔ ∃ p, file_path = VStr p ∧ p ≠ [] ∧ len p ≤ 260
       ∧ if is_output
         then os_path_dirname p = []
              ∨ (os_path_exists (os_path_dirname p) = true
                 ∧ os_access_W_OK (os_path_dirname p) = true)
         else os_path_exists p = true ∧ os_access_R_OK p = true)
  ∧ (∀ e, validate_file_path file_path is_output = Raise e →
       ∃ m, e = PaperCheckException m).
Proof.
  unfold validate_file_path. split.
  - destruct (truthy file_path) eqn:Ht; simpl.
    + destruct file_path as [| | | |p|]; simpl;
        try (split; [done|intros (p' & ? & _); done]).
      simpl in Ht. apply negb_true_iff, bool_decide_eq_false in Ht.
      destruct (260 <? len p) eqn:El.
      { split; [done|]. intros (p' & [= <-] & _ & ? & _). lia. }
      destruct is_output.
      * destruct (bool_decide (os_path_dirname p = [])) eqn:Ed; simpl.
        { apply bool_decide_eq_true in Ed. split; [|done].
          intros _. exists p. split_and!; [done|done|lia|by left]. }
        apply bool_decide_eq_false in Ed.
        destruct (os_path_exists (os_path_dirname p)) eqn:Ee; simpl.
        -- destruct (os_access_W_OK (os_path_dirname p)) eqn:Ew; simpl.
           ++ split; [|done]. intros _. exists p.
              split_and!; [done|done|lia|]. right. by rewrite Ee.
           ++ split; [done|]. intros (p' & [= <-] & _ & _ & [?|[_ ?]]);
                [done|congruence].
        -- split; [done|]. intros (p' & [= <-] & _ & _ & [?|[? _]]);
             [done|congruence].
      * destruct (os_path_exists p) eqn:Ee; simpl.
        -- destruct (os_access_R_OK p) eqn:Er; simpl.
           ++ split; [|done]. intros _. exists p.
              split_and!; first [done|lia].
           ++ split; [done|]. intros (p' & [= <-] & _ & _ & _ & ?). congruence.
        -- split; [done|]. intros (p' & [= <-] & _ & _ & ? & _). congruence.
    + split; [done|]. intros (p & -> & Hp & _). simpl in Ht.
      apply negb_false_iff, bool_decide_eq_true in Ht. done.
  - intros e. destruct (negb (truthy file_path)); [intros [= <-]; eauto|].
    destruct (as_str file_path) as [p|]; [|intros [= <-]; eauto].
    destruct (260 <? len p); [intros [= <-]; eauto|].
    destruct is_output.
    + destruct (_ && _); [intros [= <-]; eauto|].
      destruct (_ && _); [intros [= <-]; eauto|done].
    + destruct (negb _); [intros [= <-]; eauto|].
      destruct (negb _); [intros [= <-]; eauto|done].
Qed.

Section WriteOutcome.
Context {E : OsEnv}.

Lemma write_result_try_Ok result_ output_path files files' :
  write_result_try result_ output_path files = (Ok tt, files')
  ↔ ∃ p r, output_path = VStr p
      ∧ validate_file_path output_path true = Ok tt
      ∧ as_number result_ = Some (Ok r)
      ∧ f_lt r f_zero = false ∧ f_lt f_one r = false
      ∧ open_for_writing p = true
      ∧ files' = <[p := encode r]> files.
Proof.
  unfold write_result_try. split.
  - destruct (validate_file_path output_path true) as [[]|] eqn:Ev; [|done].
    destruct (as_number result_) as [[r|]|]; [|done..].
    destruct (f_lt r f_zero || f_lt f_one r) eqn:Er; [done|].
    apply orb_false_iff in Er as [Er0 Er1].
    destruct output_path as [| | | |p|]; simpl; try done.
    destruct (open_for_writing p) eqn:Eo; [|done].
    intros [= <-]. exists p, r. done.
  - intros (p & r & -> & -> & -> & -> & -> & Ho & ->). simpl.
    by rewrite Ho.
Qed.

Lemma write_result_Ok result_ output_path files files' :
  write_result result_ output_path files = (Ok tt, files')
  ↔ write_result_try result_ output_path files = (Ok tt, files').
Proof.
  unfold write_result.
  destruct (write_result_try result_ output_path files) as [[[]|e] f0];
    [done|]. by destruct e.
Qed.

End WriteOutcome.


(** A NaN passes the range check of [write_result], since it compares
    neither below 0 nor above 1, and is written as [nan]. *)
Theorem write_result_accepts_nan `{E : OsEnv} (p : str) (files : gmap str str) :
  validate_file_path (VStr p) true = Ok tt → open_for_writing p = true →
  write_result (VFloat S754_nan) (VStr p) files
  = (Ok tt, <[p := txt "nan"]> files).
Proof.
  intros Hv Ho. apply write_result_Ok, write_result_try_Ok.
  exists p, S754_nan. split_and!; done.
Qed.

Section WriteWitness.
#[local] Existing Instance PosixExample.os.

Lemma write_result_accepts_nan_witness :
  write_result (VFloat S754_nan) (VStr (txt "out/score.txt")) ∅
  = (Ok tt, <[txt "out/score.txt" := txt "nan"]> ∅).
Proof.
  apply (write_result_accepts_nan (txt "out/score.txt") ∅);
    vm_compute; reflexivity.
Defined.

End WriteWitness.

(** ** The counters of [mainTEST.py] *)

(** The list of n-grams of [mainTEST.py] has one entry per window, and
    counting it in a [defaultdict] gives the counter [main.py] builds
    directly. *)
Theorem maintest_counters_agree `{U : UnicodeData}
    (st : caches) (text : str) (n : Z) :
  coherent st → 1 ≤ n →
  (get_ngram_frequency (VStr text) (VInt n) st).1
  = Ok (MainTest.frequencies (MainTest.get_ngrams text n))
  ∧ Z.of_nat (length (MainTest.get_ngrams text n))
    = Z.max 0 (len text - n + 1)
  ∧ ∀ g, g ∈ MainTest.get_ngrams text n → len g = n.
Proof.
  intros Hst Hn.
  rewrite get_ngram_frequency_int, get_ngram_frequency_body_count by done.
  rewrite frequencies_get_ngrams. split_and!; [done| |].
  - unfold MainTest.get_ngrams, len, range.
    rewrite !length_fmap, length_seq. lia.
  - unfold MainTest.get_ngrams, range.
    intros g (i & -> & (j & -> & Hj%elem_of_seq)%list_elem_of_fmap)%list_elem_of_fmap.
    unfold slice, len in *. rewrite length_take, length_drop. lia.
Qed.

Section MainTestWitness.
#[local] Existing Instance PyFragment.data.

Lemma maintest_counters_agree_witness :
  (get_ngram_frequency (VStr (txt "banana")) (VInt 2) no_caches).1
  = Ok (MainTest.frequencies (MainTest.get_ngrams (txt "banana") 2))
  ∧ Z.of_nat (length (MainTest.get_ngrams (txt "banana") 2))
    = Z.max 0 (len (txt "banana") - 2 + 1)
  ∧ ∀ g, g ∈ MainTest.get_ngrams (txt "banana") 2 → len g = 2.
Proof.
  apply (maintest_counters_agree no_caches (txt "banana") 2).
  - exact coherent_no_caches.
  - lia.
Defined.

End MainTestWitness.

Lemma naive_of_counters_comm (f1 f2 : gmap str Z) :
  naive_of_counters f1 f2 = naive_of_counters f2 f1.
Proof.
  unfold naive_of_counters.
  rewrite <- !dot_over_union, (dot_over_comm f2 f1).
  destruct (math_sqrt_nonneg (sum_squares f1) (sum_squares_nonneg f1))
    as [-> | (x1 & _ & ->)];
    destruct (math_sqrt_nonneg (sum_squares f2) (sum_squares_nonneg f2))
    as [-> | (x2 & _ & ->)]; try done.
  by rewrite (f_mul_comm (f_sqrt x2)).
Qed.

(** The scorer of [mainTEST.py] is symmetric in its two texts. *)
Theorem maintest_similarity_symmetric `{U : UnicodeData} (A B : str) (n : Z) :
  1 ≤ n →
  MainTest.calculate_cosine_similarity A B n
  = MainTest.calculate_cosine_similarity B A n.
Proof.
  intros _. rewrite !MainTest_scorer_counters. apply naive_of_counters_comm.
Qed.

Section MainTestSymmetryWitness.
#[local] Existing Instance PyFragment.data.

Lemma maintest_similarity_symmetric_witness :
  MainTest.calculate_cosine_similarity (txt "night owl") (txt "light bowl") 2
  = MainTest.calculate_cosine_similarity (txt "light bowl") (txt "night owl") 2.
Proof.
  apply (maintest_similarity_symmetric (txt "night owl") (txt "light bowl") 2).
  lia.
Defined.

End MainTestSymmetryWitness.

(** ** Reading the inputs and running the check *)

Section RunCheckFacts.
Context {U : UnicodeData} {E : OsEnv} {F : FsEnv}.

Lemma read_file_inr file_path content :
  read_file file_path = inr content
  ↔ ∃ p file_size,
      file_path = VStr p
      ∧ validate_file_path file_path false = Ok tt
      ∧ os_path_getsize p = Some file_size
      ∧ file_size ≤ 10 * 1024 * 1024 ∧ file_size ≠ 0
      ∧ read_utf8 p = Content content
      ∧ strip content ≠ [].
Proof.
  unfold read_file. split.
  - destruct (validate_file_path file_path false) as [[]|e] eqn:Ev;
      [|by destruct e].
    destruct file_path as [| | | |p|]; simpl; try done.
    destruct (os_path_getsize p) as [file_size|] eqn:Es; [|done].
    destruct (10 * 1024 * 1024 <? file_size) eqn:El; [done|].
    destruct (file_size =? 0) eqn:Ez; [done|].
    destruct (read_utf8 p) as [c| |] eqn:Er; [|done..].
    destruct (bool_decide (strip c = [])) eqn:Eb; [done|].
    apply bool_decide_eq_false in Eb.
    intros [= <-]. exists p, file_size. split_and!; try done; lia.
  - intros (p & file_size & -> & -> & Hs & Hle & Hnz & Hr & Hb). simpl.
    rewrite Hs, Hr. destruct (10 * 1024 * 1024 <? file_size) eqn:El; [lia|].
    destruct (file_size =? 0) eqn:Ez; [lia|].
    by rewrite bool_decide_eq_false_2.
Qed.

End RunCheckFacts.

(** [read_file] returns a text exactly when the path is a valid input path,
    the file has between 1 byte and 10 MB, decodes as UTF-8 and its text is
    not blank; the text returned is the decoded content, never empty. *)
Theorem read_file_returns `{U : UnicodeData} `{E : OsEnv} `{F : FsEnv}
    (file_path : pyval) (content : str) :
  (read_file file_path = inr content
   ↔ ∃ p file_size,
       file_path = VStr p
       ∧ validate_file_path file_path false = Ok tt
       ∧ os_path_getsize p = Some file_size
       ∧ file_size ≤ 10 * 1024 * 1024 ∧ file_size ≠ 0
       ∧ read_utf8 p = Content content
       ∧ strip content ≠ [])
  ∧ (read_file file_path = inr content → content ≠ []).
Proof.
  split; [apply read_file_inr|].
  intros (p & s & _ & _ & _ & _ & _ & _ & Hb)%read_file_inr ->. by apply Hb.
Qed.


(** When the original file does not exist [run_check] prints the error and
    exits with status 1 before anything else happens: the second file is not
    read, the caches and the files stay as they were. *)
Theorem run_check_missing_original `{U : UnicodeData} `{E : OsEnv} `{F : FsEnv}
    (p : str) (plagiarized_path output_path : pyval)
    (st : caches) (files : gmap str str) :
  p ≠ [] → len p ≤ 260 → os_path_exists p = false →
  run_check (VStr p) plagiarized_path output_path st files
  = (SystemExit 1,
     [ReadingOriginal (VStr p); ReadError (InvalidPath MsgFileMissing)],
     st, files).
Proof.
  intros Hp Hlen He. unfold run_check, read_file, validate_file_path. simpl.
  rewrite bool_decide_eq_false_2 by done. simpl.
  destruct (260 <? len p) eqn:El; [lia|]. by rewrite He.
Qed.

Section RunCheckWitness.
#[local] Existing Instance PyFragment.data.
#[local] Existing Instance CheckExample.os.
#[local] Existing Instance CheckExample.fs.

Lemma run_check_missing_original_witness :
  run_check (VStr (txt "c.txt")) (VStr (txt "b.txt")) (VStr (txt "out/r.txt"))
    no_caches ∅
  = (SystemExit 1,
     [ReadingOriginal (VStr (txt "c.txt"));
      ReadError (InvalidPath MsgFileMissing)],
     no_caches, ∅).
Proof.
  apply (run_check_missing_original (txt "c.txt")).
  - discriminate.
  - vm_compute. discriminate.
  - vm_compute. reflexivity.
Defined.

(** A run on the example files: both are read, the similarity of
    ["hello world"] and ["hello word"] is written as [0.84]. *)
Lemma run_check_example :
  ∃ st',
    run_check (VStr (txt "a.txt")) (VStr (txt "b.txt")) (VStr (txt "out/r.txt"))
      no_caches ∅
    = (Returned,
       [ReadingOriginal (VStr (txt "a.txt"));
        ReadingPlagiarized (VStr (txt "b.txt"));
        Computing; Writing (VStr (txt "out/r.txt"));
        Finished (txt "0.84")],
       st', {[ txt "out/r.txt" := txt "0.84" ]}).
Proof. eexists. vm_compute. reflexivity. Qed.

End RunCheckWitness.
